(** * Static file handler of the Node adapter: trailing-slash routing,
      SSR fallback and cache headers

    A shallow embedding of [packages/node/src/serve-static.ts] and the
    properties its specification states about it.

    JavaScript strings are modelled by [string], a sequence of 8-bit
    code units: Node's HTTP parser hands [req.url] over as a one-byte
    string, so every code unit of a request URL is below 256. *)

From stdpp Require Import gmap strings.
From Stdlib Require Import Ascii ZArith Lia.

Local Open Scope Z_scope.

(** ** The [String.prototype] methods the handler calls *)

Module JS.

(** [s.startsWith(p)] *)
Definition startsWith (s p : string) : bool := String.prefix p s.

(** [s.endsWith(suf)]: some tail of [s] is [suf]. *)
Fixpoint endsWith (s suf : string) : bool :=
  if String.eqb s suf then true
  else match s with
       | EmptyString => false
       | String _ s' => endsWith s' suf
       end.

(** [s.slice(0, -1)]: [s] without its last code unit. *)
Fixpoint slice_0_m1 (s : string) : string :=
  match s with
  | EmptyString => EmptyString
  | String _ EmptyString => EmptyString
  | String c s' => String c (slice_0_m1 s')
  end.

(** [s.split(sep)] for a one-character separator.  The result of
    [split] is never empty; [split_parts] returns its first element and
    the remaining ones. *)
Fixpoint split_parts (sep : ascii) (s : string) : string * list string :=
  match s with
  | EmptyString => (EmptyString, [])
  | String c s' =>
      let (h, t) := split_parts sep s' in
      if Ascii.eqb c sep then (EmptyString, h :: t) else (String c h, t)
  end.

Definition split (sep : ascii) (s : string) : list string :=
  let (h, t) := split_parts sep s in h :: t.

(** Truthiness of a possibly undefined string: [undefined] and [''] are
    falsy. *)
Definition truthy (o : option string) : bool :=
  match o with
  | Some (String _ _) => true
  | _ => false
  end.

(** Every code unit of [s] satisfies [p]. *)
Fixpoint all (p : ascii -> bool) (s : string) : bool :=
  match s with
  | EmptyString => true
  | String c s' => p c && all p s'
  end.

(** [sep] does not occur in [s]. *)
Fixpoint lacks (sep : ascii) (s : string) : bool :=
  match s with
  | EmptyString => true
  | String c s' => negb (Ascii.eqb c sep) && lacks sep s'
  end.

End JS.

(** ** Regular expressions

  The two regular expressions of the module use only classes, sequence,
  [?] and [+], and the anchors [^] and [$]; [RegExp.prototype.test] on
  such a pattern is membership of some substring in the pattern's
  language, decided here with derivatives. *)

Module RegExp.

Inductive pattern : Type :=
| Void : pattern
| Eps : pattern
| Class (p : ascii -> bool) : pattern
| Seq (r1 r2 : pattern) : pattern
| Alt (r1 r2 : pattern) : pattern
| Star (r : pattern) : pattern.

Definition Plus (r : pattern) : pattern := Seq r (Star r).
Definition Opt (r : pattern) : pattern := Alt r Eps.
Definition Chr (c : ascii) : pattern := Class (Ascii.eqb c).

Fixpoint Lit (s : string) : pattern :=
  match s with
  | EmptyString => Eps
  | String c s' => Seq (Chr c) (Lit s')
  end.

(** [.] matches every code unit but a line terminator (of those, only
    line feed and carriage return are below 256). *)
Definition isLineTerminator (c : ascii) : bool :=
  Ascii.eqb c "010" || Ascii.eqb c "013".
Definition Dot : pattern := Class (fun c => negb (isLineTerminator c)).

(** [[a-z]] and, under the [i] flag, [[a-z]] again: without the [u]
    flag a code unit matches case-insensitively when its upper-case form
    is that of a class member, which for one-byte code units are the
    ASCII letters of both cases. *)
Definition isLower (c : ascii) : bool :=
  let n := nat_of_ascii c in (97 <=? n)%nat && (n <=? 122)%nat.
Definition isUpper (c : ascii) : bool :=
  let n := nat_of_ascii c in (65 <=? n)%nat && (n <=? 90)%nat.
Definition lower_a_z : pattern := Class isLower.
Definition lower_a_z_i : pattern := Class (fun c => isLower c || isUpper c).

Fixpoint nullable (r : pattern) : bool :=
  match r with
  | Void => false
  | Eps => true
  | Class _ => false
  | Seq r1 r2 => nullable r1 && nullable r2
  | Alt r1 r2 => nullable r1 || nullable r2
  | Star _ => true
  end.

Fixpoint deriv (c : ascii) (r : pattern) : pattern :=
  match r with
  | Void => Void
  | Eps => Void
  | Class p => if p c then Eps else Void
  | Seq r1 r2 =>
      if nullable r1 then Alt (Seq (deriv c r1) r2) (deriv c r2)
      else Seq (deriv c r1) r2
  | Alt r1 r2 => Alt (deriv c r1) (deriv c r2)
  | Star r1 => Seq (deriv c r1) (Star r1)
  end.

(** The whole of [s] matches [r]. *)
Fixpoint matches (r : pattern) (s : string) : bool :=
  match s with
  | EmptyString => nullable r
  | String c s' => matches (deriv c r) s'
  end.

(** Some prefix of [s] matches [r]. *)
Fixpoint matches_prefix (r : pattern) (s : string) : bool :=
  nullable r ||
  match s with
  | EmptyString => false
  | String c s' => matches_prefix (deriv c r) s'
  end.

(** The strings a pattern denotes. *)
Inductive lang : pattern -> string -> Prop :=
| lang_eps : lang Eps ""
| lang_class (p : ascii -> bool) (c : ascii) :
    p c = true -> lang (Class p) (String c "")
| lang_seq (r1 r2 : pattern) (s1 s2 : string) :
    lang r1 s1 -> lang r2 s2 -> lang (Seq r1 r2) (s1 +:+ s2)
| lang_alt_l (r1 r2 : pattern) (s : string) :
    lang r1 s -> lang (Alt r1 r2) s
| lang_alt_r (r1 r2 : pattern) (s : string) :
    lang r2 s -> lang (Alt r1 r2) s
| lang_star_nil (r : pattern) : lang (Star r) ""
| lang_star_more (r : pattern) (s1 s2 : string) :
    lang r s1 -> lang (Star r) s2 -> lang (Star r) (s1 +:+ s2).

(** A regular expression literal: the pattern between its anchors. *)
Record t : Type := mk {
  anchored_start : bool;   (* the literal starts with ^ *)
  body : pattern;
  anchored_end : bool      (* the literal ends with $ *)
}.

Definition match_at (re : t) (s : string) : bool :=
  if anchored_end re then matches (body re) s
  else matches_prefix (body re) s.

Fixpoint search (re : t) (s : string) : bool :=
  match_at re s ||
  match s with
  | EmptyString => false
  | String _ s' => search re s'
  end.

(** [re.test(s)] *)
Definition test (re : t) (s : string) : bool :=
  if anchored_start re then match_at re s else search re s.

End RegExp.

(** ** Node's [path] module (POSIX flavour)

    [path.join], [path.dirname] and [path.basename] as Node implements
    them for POSIX paths. *)

Module Path.

Definition isSlash (c : ascii) : bool := Ascii.eqb c "/".

Fixpoint dropWhile {A} (p : A -> bool) (l : list A) : list A :=
  match l with
  | [] => []
  | x :: l' => if p x then dropWhile p l' else l
  end.

Fixpoint takeWhile {A} (p : A -> bool) (l : list A) : list A :=
  match l with
  | [] => []
  | x :: l' => if p x then x :: takeWhile p l' else []
  end.

(** [path.dirname(p)]: scanning from the end down to index 1, skip the
    trailing slashes and the last segment; [end] is the index of the
    slash found there. *)
Definition dirname (p : string) : string :=
  match String.list_ascii_of_string p with
  | [] => "."
  | c0 :: rest =>
      let hasRoot := isSlash c0 in
      match dropWhile (fun c => negb (isSlash c)) (dropWhile isSlash (rev rest)) with
      | [] => if hasRoot then "/" else "."
      | _ :: before =>
          if hasRoot && bool_decide (before = []) then "//"
          else String.string_of_list_ascii (c0 :: rev before)
      end
  end.

(** [path.basename(p)]: the last segment, trailing slashes left out. *)
Definition basename (p : string) : string :=
  let r := dropWhile isSlash (rev (String.list_ascii_of_string p)) in
  String.string_of_list_ascii (rev (takeWhile (fun c => negb (isSlash c)) r)).

(** [normalizeString]: resolve the [.] and [..] segments; [stack] holds
    the segments kept so far, last one first. *)
Fixpoint normalizeSegments (allowAboveRoot : bool) (segs stack : list string)
  : list string :=
  match segs with
  | [] => rev stack
  | seg :: segs' =>
      if bool_decide (seg = "") || bool_decide (seg = ".") then
        normalizeSegments allowAboveRoot segs' stack
      else if bool_decide (seg = "..") then
        match stack with
        | top :: below =>
            if bool_decide (top = "..") then
              normalizeSegments allowAboveRoot segs'
                (if allowAboveRoot then ".." :: stack else stack)
            else normalizeSegments allowAboveRoot segs' below
        | [] =>
            normalizeSegments allowAboveRoot segs'
              (if allowAboveRoot then [".."] else [])
        end
      else normalizeSegments allowAboveRoot segs' (seg :: stack)
  end.

Fixpoint concatWith (sep : string) (l : list string) : string :=
  match l with
  | [] => ""
  | [s] => s
  | s :: l' => s +:+ sep +:+ concatWith sep l'
  end.

(** [path.normalize(p)] *)
Definition normalize (p : string) : string :=
  match p with
  | EmptyString => "."
  | String c0 _ =>
      let isAbsolute := isSlash c0 in
      let trailingSeparator := JS.endsWith p "/" in
      let res :=
        concatWith "/" (normalizeSegments (negb isAbsolute) (JS.split "/" p) []) in
      match res with
      | EmptyString =>
          if isAbsolute then "/" else if trailingSeparator then "./" else "."
      | _ =>
          let res := if trailingSeparator then res +:+ "/" else res in
          if isAbsolute then "/" +:+ res else res
      end
  end.

(** [path.join(a, b)]: empty arguments are left out. *)
Definition join (a b : string) : string :=
  match a, b with
  | EmptyString, EmptyString => "."
  | EmptyString, _ => normalize b
  | _, EmptyString => normalize a
  | _, _ => normalize (a +:+ "/" +:+ b)
  end.

End Path.

(** ** The module's helpers *)

(** [/.+\.[a-z]+$/i] *)
Definition isSubresourceRegex : RegExp.t :=
  RegExp.mk false
    (RegExp.Seq (RegExp.Plus RegExp.Dot)
       (RegExp.Seq (RegExp.Chr ".") (RegExp.Plus RegExp.lower_a_z_i)))
    true.

(** The same pattern without the [i] flag, as the comment above the
    constant words it: "a dot followed by a extension made up of lowercase
    characters". *)
Definition isSubresourceRegex_lowercase : RegExp.t :=
  RegExp.mk false
    (RegExp.Seq (RegExp.Plus RegExp.Dot)
       (RegExp.Seq (RegExp.Chr ".") (RegExp.Plus RegExp.lower_a_z)))
    true.

(** [/^\/?_actions\/.+/] *)
Definition isActionRegex : RegExp.t :=
  RegExp.mk true
    (RegExp.Seq (RegExp.Opt (RegExp.Chr "/"))
       (RegExp.Seq (RegExp.Lit "_actions/") (RegExp.Plus RegExp.Dot)))
    false.

Definition prependForwardSlash (pth : string) : string :=
  if JS.startsWith pth "/" then pth else "/" +:+ pth.

Definition appendForwardSlash (pth : string) : string :=
  if JS.endsWith pth "/" then pth else pth +:+ "/".

(** ** Data model *)

Inductive TrailingSlash : Type := never | ignore | always.

(** The fields of [Options] the module reads. *)
Record Options : Type := {
  trailingSlash : option TrailingSlash;   (* undefined: defaults to 'ignore' *)
  assets : string;
  client : string;
  server : string
}.

(** [app.removeBase], the one capability of [NodeApp] the handler uses. *)
Record NodeApp : Type := {
  removeBase : string -> string
}.

Record Stats : Type := {
  isDirectory : bool
}.

(** [fs.lstatSync]; [None] when it throws. *)
Record Fs : Type := {
  lstatSync : string -> option Stats
}.

Record IncomingMessage : Type := {
  url : option string;
  method : option string
}.

(** What the handler writes on the response. *)
Record ServerResponse : Type := {
  statusCode : Z;
  headers : gmap string string;
  body : string;
  writableEnded : bool
}.

(** The response, the calls of the [ssr] callback, the lines written by
    [console.error] and the exceptions thrown out of a listener, which
    nothing catches. *)
Record World : Type := {
  res : ServerResponse;
  ssrCalls : nat;
  stderr : list string;
  uncaught : list string
}.

Inductive Dotfiles : Type := allow | deny.

(** The stream [send(req, pathname, { root, dotfiles })] returns, with the
    two variables its listeners close over, [pathname] and
    [forwardError], and [res.headersSent] as the piped stream and its
    listeners find it: the header block of the response is unsent when
    the handler pipes the stream, and goes out with the first bytes
    written. *)
Record SendStream : Type := {
  pathname : string;
  root : string;
  dotfiles : Dotfiles;
  forwardError : bool;
  headersSent : bool
}.

(** The events of the stream the handler listens to, and the writes of
    the piped stream on the response ([stream.pipe(res)]). *)
Inductive StreamEvent : Type :=
| EvError (err : string)
| EvHeaders
| EvFile
| EvWrite.

#[global] Instance StreamEvent_eq_dec : EqDecision StreamEvent.
Proof. solve_decision. Defined.

(** How a [case] block of the [switch] ends. *)
Inductive Completion : Type :=
| Return301 (location : string)   (* the redirect was written; [return res.end()] *)
| Break (pathname : string)
| FallThrough (pathname : string).

(** The outcome of the path normalizer, as the specification names it. *)
Inductive RoutingDecision : Type :=
| Redirect (location : string)
| Serve (pathname : string).

(** ** Writes on the response and the world *)

Definition set_statusCode (code : Z) (r : ServerResponse) : ServerResponse :=
  {| statusCode := code; headers := headers r; body := body r;
     writableEnded := writableEnded r |}.

Definition setHeader (name value : string) (r : ServerResponse) : ServerResponse :=
  {| statusCode := statusCode r; headers := <[name := value]> (headers r);
     body := body r; writableEnded := writableEnded r |}.

(** [res.writeHead(code)]: [None] when it throws [ERR_HTTP_HEADERS_SENT],
    the header block being out already. *)
Definition writeHead (headersSent : bool) (code : Z) (r : ServerResponse)
  : option ServerResponse :=
  if headersSent then None else Some (set_statusCode code r).

(** [res.end(chunk)]; [res.end()] is [end_ ""]. *)
Definition end_ (chunk : string) (r : ServerResponse) : ServerResponse :=
  {| statusCode := statusCode r; headers := headers r;
     body := body r +:+ chunk; writableEnded := true |}.

Definition with_res (r : ServerResponse) (w : World) : World :=
  {| res := r; ssrCalls := ssrCalls w; stderr := stderr w;
     uncaught := uncaught w |}.

Definition ssr (w : World) : World :=
  {| res := res w; ssrCalls := S (ssrCalls w); stderr := stderr w;
     uncaught := uncaught w |}.

Definition console_error (line : string) (w : World) : World :=
  {| res := res w; ssrCalls := ssrCalls w; stderr := stderr w ++ [line];
     uncaught := uncaught w |}.

(** An exception leaves a listener. *)
Definition throw (code : string) (w : World) : World :=
  {| res := res w; ssrCalls := ssrCalls w; stderr := stderr w;
     uncaught := uncaught w ++ [code] |}.

Definition immutableCacheControl : string :=
  "public, max-age=31536000, immutable".

(** [res.statusCode = 301; res.setHeader('Location', pathname); res.end()] *)
Definition redirect301 (location : string) (w : World) : World :=
  with_res
    (end_ "" (setHeader "Location" location (set_statusCode 301 (res w)))) w.

(** ** [createStaticHandler]: the request listener *)

Section Handler.

Context (app : NodeApp) (fs : Fs) (options : Options).
(** [client], the directory [resolveClientDir(options)] returned. *)
Context (client : string).

(** [const [urlPath, urlQuery] = req.url.split('?')] *)
Definition urlPath_of (u : string) : string := (JS.split_parts "?" u).1.
Definition urlQuery_of (u : string) : option string :=
  head (JS.split_parts "?" u).2.

(** [fs.lstatSync(path.join(client, app.removeBase(urlPath))).isDirectory()],
    [false] when [lstatSync] throws. *)
Definition probe_isDirectory (urlPath : string) : bool :=
  let filePath := Path.join client (removeBase app urlPath) in
  match lstatSync fs filePath with
  | Some st => isDirectory st
  | None => false
  end.

(** [(urlQuery ? '?' + urlQuery : '')] *)
Definition queryPart (urlQuery : option string) : string :=
  if JS.truthy urlQuery then "?" +:+ default "" urlQuery else "".

Definition isActionRequest (method : option string) (urlPath : string) : bool :=
  RegExp.test isActionRegex (removeBase app urlPath)
  && bool_decide (method = Some "POST").

(** [case 'never':] *)
Definition case_never (urlPath : string) (urlQuery : option string)
    (isDirectory hasSlash : bool) : Completion :=
  if isDirectory && negb (String.eqb urlPath "/") && hasSlash
  then Return301 (JS.slice_0_m1 urlPath +:+ queryPart urlQuery)
  else FallThrough urlPath.

(** [case 'ignore':] *)
Definition case_ignore (urlPath : string) (isDirectory hasSlash : bool)
  : Completion :=
  if isDirectory && negb hasSlash then Break (urlPath +:+ "/index.html")
  else Break urlPath.

(** [case 'always':] *)
Definition case_always (method : option string) (urlPath : string)
    (urlQuery : option string) (hasSlash : bool) : Completion :=
  if negb hasSlash && negb (RegExp.test isSubresourceRegex urlPath)
     && negb (isActionRequest method urlPath)
  then Return301 ((urlPath +:+ "/") +:+ queryPart urlQuery)
  else Break urlPath.

(** [switch (trailingSlash)]: the block of ['never'] falls through into
    the block of ['ignore'], which assigns [pathname] anew. *)
Definition trailingSlashSwitch (policy : TrailingSlash)
    (method : option string) (urlPath : string) (urlQuery : option string)
    (isDirectory hasSlash : bool) : Completion :=
  match policy with
  | never =>
      match case_never urlPath urlQuery isDirectory hasSlash with
      | FallThrough _ => case_ignore urlPath isDirectory hasSlash
      | c => c
      end
  | ignore => case_ignore urlPath isDirectory hasSlash
  | always => case_always method urlPath urlQuery hasSlash
  end.

Definition decision_of (c : Completion) : RoutingDecision :=
  match c with
  | Return301 location => Redirect location
  | Break p | FallThrough p => Serve p
  end.

(** The routing decision for the URL [u] (lines 26 to 74): split, probe,
    switch. *)
Definition route (policy : TrailingSlash) (method : option string)
    (u : string) : RoutingDecision :=
  let urlPath := urlPath_of u in
  decision_of
    (trailingSlashSwitch policy method urlPath (urlQuery_of u)
       (probe_isDirectory urlPath) (JS.endsWith urlPath "/")).

(** [send(req, pathname, { root: client, dotfiles: ... })], with
    [forwardError] still [false] and nothing written yet. *)
Definition send (p : string) : SendStream :=
  {| pathname := p;
     root := client;
     dotfiles := if JS.startsWith p "/.well-known/" then allow else deny;
     forwardError := false;
     headersSent := false |}.

(** The listener [(req, res, ssr) => ...] up to [stream.pipe(res)]: the
    world it leaves and the stream it piped, if any. *)
Definition handler (req : IncomingMessage) (w : World)
  : World * option SendStream :=
  if JS.truthy (url req) then
    let u := default "" (url req) in
    match route (default ignore (trailingSlash options)) (method req) u with
    | Redirect location => (redirect301 location w, None)
    | Serve p =>
        (w, Some (send (prependForwardSlash (removeBase app p))))
    end
  else (ssr w, None).

(** The header block of the response has gone out. *)
Definition sent (s : SendStream) : SendStream :=
  {| pathname := pathname s; root := root s; dotfiles := dotfiles s;
     forwardError := forwardError s; headersSent := true |}.

(** [stream.on('error', ...)]: when [res.writeHead(500)] throws, the
    exception leaves the listener and [res.end] is not reached. *)
Definition on_error (err : string) (s : SendStream) (w : World)
  : SendStream * World :=
  if forwardError s then
    let w1 := console_error err w in
    match writeHead (headersSent s) 500 (res w1) with
    | Some r => (sent s, with_res (end_ "Internal server error" r) w1)
    | None => (s, throw "ERR_HTTP_HEADERS_SENT" w1)
    end
  else (s, ssr w).

(** [stream.on('headers', ...)]; [send] signals [headers] before the
    header block goes out. *)
Definition on_headers (s : SendStream) (w : World) : World :=
  if JS.startsWith (pathname s) ("/" +:+ assets options +:+ "/")
  then with_res (setHeader "Cache-Control" immutableCacheControl (res w)) w
  else w.

(** [stream.on('file', ...)] *)
Definition on_file (s : SendStream) : SendStream :=
  {| pathname := pathname s; root := root s; dotfiles := dotfiles s;
     forwardError := true; headersSent := headersSent s |}.

Definition emit (sw : SendStream * World) (ev : StreamEvent)
  : SendStream * World :=
  match ev with
  | EvError err => on_error err sw.1 sw.2
  | EvHeaders => (sw.1, on_headers sw.1 sw.2)
  | EvFile => (on_file sw.1, sw.2)
  | EvWrite => (sent sw.1, sw.2)
  end.

(** The listeners run on the events of the stream, and the stream writes,
    in order. *)
Definition emit_all (evs : list StreamEvent) (sw : SendStream * World)
  : SendStream * World :=
  fold_left emit evs sw.

End Handler.

(** ** [resolveClientDir] *)

(** The [while] loop: [Some] folder when it exits within [fuel]
    iterations, [None] when it is still running after them. *)
Fixpoint walkUp (fuel : nat) (serverFolder serverEntryFolderURL : string)
  : option string :=
  if JS.endsWith serverEntryFolderURL serverFolder
  then Some serverEntryFolderURL
  else match fuel with
       | O => None
       | S fuel' => walkUp fuel' serverFolder (Path.dirname serverEntryFolderURL)
       end.

(** The [k]-th parent of a location, and a walk that never exits. *)
Definition ancestor (k : nat) (start : string) : string :=
  Nat.iter k Path.dirname start.

Definition walks_forever (serverFolder start : string) : Prop :=
  forall fuel, walkUp fuel serverFolder start = None.

Inductive Resolution : Type :=
| Resolved (clientDir : string)
| Threw            (* a [TypeError] of [new URL] or [fileURLToPath] *)
| StillWalking.    (* the loop has not exited *)

Section ResolveClientDir.

(** Node's [url] module, which the resolver only passes through:
    [path.relative(fileURLToPath(new URL(server)), fileURLToPath(new URL(client)))]
    and [fileURLToPath(new URL(rel, base))], [None] when they throw. *)
Context (relativeOfURLs : string -> string -> option string).
Context (fileURLToPathAt : string -> string -> option string).

Definition resolveClientDir (fuel : nat) (options : Options)
    (import_meta_url : string) : Resolution :=
  match relativeOfURLs (server options) (client options) with
  | None => Threw
  | Some rel =>
      let serverFolder := Path.basename (server options) in
      match walkUp fuel serverFolder (Path.dirname import_meta_url) with
      | None => StillWalking
      | Some serverEntryFolderURL =>
          let serverEntryURL := serverEntryFolderURL +:+ "/entry.mjs" in
          match fileURLToPathAt (appendForwardSlash rel) serverEntryURL with
          | Some clientDir => Resolved clientDir
          | None => Threw
          end
      end
  end.

(** [createStaticHandler(app, options)]: the listener, once the client
    directory is resolved. *)
Definition createStaticHandler (fuel : nat) (app : NodeApp) (fs : Fs)
    (options : Options) (import_meta_url : string)
  : option (IncomingMessage -> World -> World * option SendStream) :=
  match resolveClientDir fuel options import_meta_url with
  | Resolved clientDir => Some (handler app fs options clientDir)
  | Threw | StillWalking => None
  end.

End ResolveClientDir.

(** ** The [never] policy as the specification words it

    "If [P] is a directory, is not the root path and ends with a trailing
    slash, redirect to [P] with the slash stripped (query string
    re-appended if present); otherwise delegate to the [ignore]
    procedure." *)

Definition spec_ignore (P : string) (isDirectory hasSlash : bool)
  : RoutingDecision :=
  if isDirectory && negb hasSlash then Serve (P +:+ "/index.html") else Serve P.

Definition spec_never (P : string) (Q : option string)
    (isDirectory hasSlash : bool) : RoutingDecision :=
  if isDirectory && negb (bool_decide (P = "/")) && hasSlash
  then Redirect (JS.slice_0_m1 P +:+ queryPart Q)
  else spec_ignore P isDirectory hasSlash.

(** ** Request URLs

    The request target [P], [P?] or [P?Q]: a path and, after the first
    [?], the query string of the request, when it has one. *)

Definition withQuery (P : string) (query : option string) : string :=
  match query with
  | Some q => P +:+ "?" +:+ q
  | None => P
  end.

(** ** A small deployment, for the concrete cases

    An application mounted at [/] (its [removeBase] drops the leading
    slash), and a client directory [/srv/client] that holds a folder
    [about], an image and a hashed asset. *)

Definition rootApp : NodeApp :=
  {| removeBase := fun p =>
       match p with
       | String "/" rest => rest
       | _ => p
       end |}.

Definition siteFs : Fs :=
  {| lstatSync := fun p =>
       if bool_decide (p ∈ ["/srv/client"; "/srv/client/";
                            "/srv/client/about"; "/srv/client/about/"])
       then Some {| isDirectory := true |}
       else if bool_decide (p ∈ ["/srv/client/logo.PNG";
                                 "/srv/client/about/index.html";
                                 "/srv/client/_astro/app.3f9a.js"])
       then Some {| isDirectory := false |}
       else None |}.

Definition siteOptions (policy : TrailingSlash) : Options :=
  {| trailingSlash := Some policy;
     assets := "_astro";
     client := "file:///srv/client/";
     server := "file:///srv/server/" |}.

(** The same options with [trailingSlash] left out. *)
Definition siteDefaultOptions : Options :=
  {| trailingSlash := None;
     assets := "_astro";
     client := "file:///srv/client/";
     server := "file:///srv/server/" |}.

(** Node's [url] functions at the locations of this deployment, whose
    server entry is [file:///srv/server/entry.mjs]. *)
Definition siteRelativeOfURLs (serverURL clientURL : string) : option string :=
  if bool_decide (serverURL = "file:///srv/server/")
     && bool_decide (clientURL = "file:///srv/client/")
  then Some "../client" else None.

Definition siteFileURLToPathAt (rel base : string) : option string :=
  if bool_decide (rel = "../client/")
     && bool_decide (base = "file:///srv/server/entry.mjs")
  then Some "/srv/client/" else None.

Definition siteClient : string := "/srv/client/".

Definition freshResponse : ServerResponse :=
  {| statusCode := 200; headers := ∅; body := ""; writableEnded := false |}.

Definition freshWorld : World :=
  {| res := freshResponse; ssrCalls := 0; stderr := []; uncaught := [] |}.

Definition request (meth u : string) : IncomingMessage :=
  {| url := Some u; method := Some meth |}.

(** What [site] answers to a request under [policy]. *)
Definition site (policy : TrailingSlash) (req : IncomingMessage)
  : World * option SendStream :=
  handler rootApp siteFs (siteOptions policy) siteClient req freshWorld.

(** ** Runs of stream events *)

(** The errors a run of events signals, in order. *)
Fixpoint errorsOf (evs : list StreamEvent) : list string :=
  match evs with
  | [] => []
  | EvError err :: evs' => err :: errorsOf evs'
  | _ :: evs' => errorsOf evs'
  end.

#[global] Instance RoutingDecision_eq_dec : EqDecision RoutingDecision.
Proof. solve_decision. Defined.

(** * Properties *)

(** ** Strings *)

Example split_two_marks :
  JS.split "?" "/about/?a=1?b=2" = ["/about/"; "a=1"; "b=2"].
Proof. reflexivity. Qed.

Example split_trailing_mark : JS.split "?" "/about/?" = ["/about/"; ""].
Proof. reflexivity. Qed.

Example split_no_mark : JS.split "?" "/about/" = ["/about/"].
Proof. reflexivity. Qed.

Example slice_about : JS.slice_0_m1 "/about/" = "/about".
Proof. reflexivity. Qed.

Example subresource_examples :
  RegExp.test isSubresourceRegex "/logo.png" = true
  /\ RegExp.test isSubresourceRegex "/.env" = true
  /\ RegExp.test isSubresourceRegex "/a.b/c" = false
  /\ RegExp.test isSubresourceRegex "/v1.2" = false
  /\ RegExp.test isSubresourceRegex ".env" = false.
Proof. repeat split; reflexivity. Qed.

Example action_examples :
  RegExp.test isActionRegex "/_actions/like" = true
  /\ RegExp.test isActionRegex "_actions/like" = true
  /\ RegExp.test isActionRegex "_actions/" = false
  /\ RegExp.test isActionRegex "/blog/_actions/like" = false.
Proof. repeat split; reflexivity. Qed.

Example dirname_examples :
  Path.dirname "/a/b/" = "/a"
  /\ Path.dirname "//a" = "//"
  /\ Path.dirname "a//b" = "a/"
  /\ Path.dirname "file:///app" = "file://"
  /\ Path.dirname "file://" = "."
  /\ Path.dirname "." = "."
  /\ Path.dirname "/" = "/".
Proof. repeat split; reflexivity. Qed.

Example basename_server : Path.basename "file:///srv/server/" = "server".
Proof. reflexivity. Qed.

Example join_examples :
  Path.join "/srv/client/" "about//" = "/srv/client/about/"
  /\ Path.join "/srv/client/" "" = "/srv/client/"
  /\ Path.join "/srv/client/" "a/../b/./c" = "/srv/client/b/c"
  /\ Path.join "/srv/client/" "../../../.." = "/".
Proof. repeat split; reflexivity. Qed.

Lemma append_cons (c : ascii) (s t : string) :
  String c s +:+ t = String c (s +:+ t).
Proof. reflexivity. Qed.

Lemma append_nil_r (s : string) : s +:+ "" = s.
Proof.
  induction s as [|c s IH]; [reflexivity|].
  rewrite append_cons, IH. reflexivity.
Qed.

Lemma append_assoc (s t u : string) : (s +:+ t) +:+ u = s +:+ t +:+ u.
Proof.
  induction s as [|c s IH]; [reflexivity|].
  rewrite !append_cons, IH. reflexivity.
Qed.

Lemma endsWith_unfold (s suf : string) :
  JS.endsWith s suf
  = if String.eqb s suf then true
    else match s with
         | EmptyString => false
         | String _ s' => JS.endsWith s' suf
         end.
Proof. destruct s; reflexivity. Qed.

Lemma endsWith_refl (s : string) : JS.endsWith s s = true.
Proof. rewrite endsWith_unfold, String.eqb_refl. reflexivity. Qed.

Lemma endsWith_append (s suf : string) : JS.endsWith (s +:+ suf) suf = true.
Proof.
  induction s as [|c s IH]; [apply endsWith_refl|].
  rewrite append_cons, endsWith_unfold, IH.
  destruct (String.eqb _ _); reflexivity.
Qed.

Lemma endsWith_inv (s suf : string) :
  JS.endsWith s suf = true -> exists pre, s = pre +:+ suf.
Proof.
  induction s as [|c s IH]; rewrite endsWith_unfold.
  - destruct (String.eqb_spec "" suf) as [<-|]; [|discriminate].
    exists "". reflexivity.
  - destruct (String.eqb_spec (String c s) suf) as [<-|_].
    + exists "". reflexivity.
    + intros [pre ->]%IH. exists (String c pre). reflexivity.
Qed.

Lemma slice_0_m1_snoc (s : string) (c : ascii) :
  JS.slice_0_m1 (s +:+ String c "") = s.
Proof.
  induction s as [|a s IH]; [reflexivity|].
  rewrite append_cons. simpl. rewrite IH.
  destruct s; reflexivity.
Qed.

Lemma split_parts_lacks (sep : ascii) (s : string) :
  JS.lacks sep s = true -> JS.split_parts sep s = (s, []).
Proof.
  induction s as [|c s IH]; simpl; [reflexivity|].
  intros [Hc Hs]%andb_true_iff. rewrite (IH Hs).
  destruct (Ascii.eqb c sep); [discriminate|reflexivity].
Qed.

Lemma split_parts_append (sep : ascii) (a b : string) :
  JS.lacks sep a = true ->
  JS.split_parts sep (a +:+ String sep b)
  = (a, (JS.split_parts sep b).1 :: (JS.split_parts sep b).2).
Proof.
  induction a as [|c a IH].
  - intros _. change ("" +:+ String sep b) with (String sep b).
    cbn [JS.split_parts]. destruct (JS.split_parts sep b).
    rewrite Ascii.eqb_refl. reflexivity.
  - cbn [JS.lacks]. intros [Hc Ha]%andb_true_iff.
    rewrite append_cons. cbn [JS.split_parts].
    rewrite (IH Ha). destruct (Ascii.eqb c sep); [discriminate|reflexivity].
Qed.

Lemma split_parts_fst_lacks (sep : ascii) (s : string) :
  JS.lacks sep (JS.split_parts sep s).1 = true.
Proof.
  induction s as [|c s IH]; simpl; [reflexivity|].
  destruct (JS.split_parts sep s) as [h t]; simpl in *.
  destruct (Ascii.eqb c sep) eqn:E; simpl; [reflexivity|].
  rewrite E, IH. reflexivity.
Qed.

Lemma lacks_append (sep : ascii) (a b : string) :
  JS.lacks sep (a +:+ b) = JS.lacks sep a && JS.lacks sep b.
Proof.
  induction a as [|c a IH]; [reflexivity|].
  rewrite append_cons. simpl. rewrite IH, andb_assoc. reflexivity.
Qed.

(** ** [RegExp.test] decides the language of the pattern *)

Lemma append_eq_nil (a b : string) : a +:+ b = "" -> a = "" /\ b = "".
Proof. destruct a; [intros H; split; [reflexivity|exact H]|discriminate]. Qed.

Lemma nullable_lang (r : RegExp.pattern) :
  RegExp.nullable r = true <-> RegExp.lang r "".
Proof.
  split.
  - induction r as [| |p|r1 IH1 r2 IH2|r1 IH1 r2 IH2|r IH]; simpl;
      try discriminate.
    + intros _. constructor.
    + intros [H1 H2]%andb_true_iff.
      change "" with ("" +:+ ""). constructor; auto.
    + intros [H|H]%orb_true_iff;
        [apply RegExp.lang_alt_l|apply RegExp.lang_alt_r]; auto.
    + intros _. constructor.
  - intros H. remember "" as s eqn:Hs.
    induction H as [|p c Hc|r1 r2 s1 s2 _ IH1 _ IH2|r1 r2 s _ IH
                   |r1 r2 s _ IH|r|r s1 s2 _ _ _ _]; simpl;
      try reflexivity; try discriminate.
    + apply append_eq_nil in Hs as [-> ->].
      rewrite IH1, IH2; reflexivity.
    + rewrite (IH Hs). reflexivity.
    + rewrite (IH Hs). apply orb_true_r.
Qed.

Lemma lang_deriv (c : ascii) (r : RegExp.pattern) (s0 : string) :
  RegExp.lang r s0 ->
  forall s, s0 = String c s -> RegExp.lang (RegExp.deriv c r) s.
Proof.
  induction 1 as [|p c0 Hc|r1 r2 s1 s2 H1 IH1 H2 IH2|r1 r2 s0 _ IH
                 |r1 r2 s0 _ IH|r|r s1 s2 H1 IH1 H2 IH2]; intros s Hs; simpl.
  - discriminate.
  - injection Hs as -> <-. rewrite Hc. constructor.
  - destruct s1 as [|c1 s1].
    + apply nullable_lang in H1. rewrite H1.
      apply RegExp.lang_alt_r, IH2, Hs.
    + rewrite append_cons in Hs. injection Hs as -> <-.
      assert (H : RegExp.lang (RegExp.Seq (RegExp.deriv c r1) r2) (s1 +:+ s2))
        by (constructor; [apply IH1; reflexivity|exact H2]).
      destruct (RegExp.nullable r1); [apply RegExp.lang_alt_l|]; exact H.
  - apply RegExp.lang_alt_l, IH, Hs.
  - apply RegExp.lang_alt_r, IH, Hs.
  - discriminate.
  - destruct s1 as [|c1 s1].
    + apply IH2, Hs.
    + rewrite append_cons in Hs. injection Hs as -> <-.
      constructor; [apply IH1; reflexivity|exact H2].
Qed.

Lemma deriv_lang (c : ascii) (r : RegExp.pattern) :
  forall s, RegExp.lang (RegExp.deriv c r) s -> RegExp.lang r (String c s).
Proof.
  induction r as [| |p|r1 IH1 r2 IH2|r1 IH1 r2 IH2|r IH]; simpl; intros s H.
  - inversion H.
  - inversion H.
  - destruct (p c) eqn:Hc; inversion H; subst. constructor. exact Hc.
  - assert (Hseq : forall s, RegExp.lang (RegExp.Seq (RegExp.deriv c r1) r2) s ->
                             RegExp.lang (RegExp.Seq r1 r2) (String c s)).
    { intros s' H'. inversion H'; subst. rewrite <- append_cons.
      constructor; [apply IH1|]; assumption. }
    destruct (RegExp.nullable r1) eqn:Hn; [|apply Hseq, H].
    inversion H; subst; [apply Hseq; assumption|].
    change (String c s) with ("" +:+ String c s).
    constructor; [apply nullable_lang, Hn|apply IH2; assumption].
  - inversion H; subst;
      [apply RegExp.lang_alt_l, IH1|apply RegExp.lang_alt_r, IH2]; assumption.
  - inversion H; subst. rewrite <- append_cons.
    constructor; [apply IH|]; assumption.
Qed.

(** [matches] is membership in the language. *)
Lemma matches_lang (s : string) :
  forall r, RegExp.matches r s = true <-> RegExp.lang r s.
Proof.
  induction s as [|c s IH]; intros r; simpl.
  - apply nullable_lang.
  - rewrite IH. split; [apply deriv_lang|].
    intros H. apply (lang_deriv c r _ H). reflexivity.
Qed.

Lemma matches_prefix_unfold (r : RegExp.pattern) (s : string) :
  RegExp.matches_prefix r s
  = RegExp.nullable r
    || match s with
       | EmptyString => false
       | String c s' => RegExp.matches_prefix (RegExp.deriv c r) s'
       end.
Proof. destruct s; reflexivity. Qed.

(** [matches_prefix] is membership of a prefix. *)
Lemma matches_prefix_lang (s : string) :
  forall r,
    RegExp.matches_prefix r s = true
    <-> exists m b, s = m +:+ b /\ RegExp.lang r m.
Proof.
  induction s as [|c s IH]; intros r; rewrite matches_prefix_unfold.
  - rewrite orb_false_r, nullable_lang. split.
    + intros H. exists "", "". split; [reflexivity|exact H].
    + intros (m & b & Hs & H). symmetry in Hs.
      apply append_eq_nil in Hs as [-> _]. exact H.
  - rewrite orb_true_iff, nullable_lang, IH. split.
    + intros [H|(m & b & -> & H)].
      * exists "", (String c s). split; [reflexivity|exact H].
      * exists (String c m), b. split; [reflexivity|apply deriv_lang, H].
    + intros ([|c' m] & b & Hs & H); [left; exact H|right].
      rewrite append_cons in Hs. injection Hs as <- ->.
      exists m, b. split; [reflexivity|].
      apply (lang_deriv c r _ H). reflexivity.
Qed.

Lemma match_at_lang (re : RegExp.t) (s : string) :
  RegExp.match_at re s = true
  <-> exists m b,
        s = m +:+ b /\ RegExp.lang (RegExp.body re) m
        /\ (RegExp.anchored_end re = true -> b = "").
Proof.
  unfold RegExp.match_at. destruct (RegExp.anchored_end re).
  - rewrite matches_lang. split.
    + intros H. exists s, "". rewrite append_nil_r. auto.
    + intros (m & b & -> & H & Hb). rewrite (Hb eq_refl), append_nil_r.
      exact H.
  - rewrite matches_prefix_lang. split.
    + intros (m & b & Hs & H). exists m, b. repeat split; [exact Hs|exact H|].
      discriminate.
    + intros (m & b & Hs & H & _). exists m, b. auto.
Qed.

Lemma search_unfold (re : RegExp.t) (s : string) :
  RegExp.search re s
  = RegExp.match_at re s
    || match s with
       | EmptyString => false
       | String _ s' => RegExp.search re s'
       end.
Proof. destruct s; reflexivity. Qed.

(** [re.test(s)] holds exactly when [s] is [a ++ m ++ b] with [m] in the
    language of the pattern, [a] empty under [^] and [b] empty under
    [$]. *)
Lemma test_lang (re : RegExp.t) (s : string) :
  RegExp.test re s = true
  <-> exists a m b,
        s = a +:+ m +:+ b /\ RegExp.lang (RegExp.body re) m
        /\ (RegExp.anchored_start re = true -> a = "")
        /\ (RegExp.anchored_end re = true -> b = "").
Proof.
  unfold RegExp.test. destruct (RegExp.anchored_start re).
  - rewrite match_at_lang. split.
    + intros (m & b & Hs & H & Hb). exists "", m, b. auto.
    + intros (a & m & b & -> & H & Ha & Hb). rewrite (Ha eq_refl).
      exists m, b. auto.
  - induction s as [|c s IH]; rewrite search_unfold, orb_true_iff, match_at_lang.
    + split.
      * intros [(m & b & Hs & H & Hb)|?]; [|discriminate].
        exists "", m, b. repeat split; auto; discriminate.
      * intros ([|] & m & b & Hs & H & _ & Hb); [|discriminate].
        left. exists m, b. auto.
    + rewrite IH. split.
      * intros [(m & b & Hs & H & Hb)|(a & m & b & -> & H & _ & Hb)].
        -- exists "", m, b. repeat split; auto; discriminate.
        -- exists (String c a), m, b. repeat split; auto; discriminate.
      * intros ([|c' a] & m & b & Hs & H & _ & Hb).
        -- left. exists m, b. auto.
        -- right. rewrite append_cons in Hs. injection Hs as <- ->.
           exists a, m, b. repeat split; auto; discriminate.
Qed.

Lemma lang_star_class (p : ascii -> bool) (m : string) :
  RegExp.lang (RegExp.Star (RegExp.Class p)) m <-> JS.all p m = true.
Proof.
  split.
  - intros H. remember (RegExp.Star (RegExp.Class p)) as r eqn:Hr.
    induction H as [| | | | |r|r s1 s2 H1 _ _ IH2]; try discriminate.
    + reflexivity.
    + injection Hr as ->. inversion H1 as [|p' c Hc| | | | |]; subst.
      change (String c "" +:+ s2) with (String c s2). simpl.
      rewrite IH2 by reflexivity. rewrite andb_true_r. exact Hc.
  - induction m as [|c m IH]; simpl; [intros _; constructor|].
    intros [Hc Hm]%andb_true_iff.
    change (String c m) with (String c "" +:+ m).
    constructor; [constructor; exact Hc|apply IH, Hm].
Qed.

Lemma lang_plus_class (p : ascii -> bool) (m : string) :
  RegExp.lang (RegExp.Plus (RegExp.Class p)) m
  <-> m <> "" /\ JS.all p m = true.
Proof.
  unfold RegExp.Plus. split.
  - intros H. inversion H as [| |r1 r2 s1 s2 H1 H2| | | |]; subst.
    inversion H1 as [|p' c Hc| | | | |]; subst. apply lang_star_class in H2.
    change (String c "" +:+ s2) with (String c s2). simpl.
    split; [discriminate|]. rewrite H2, andb_true_r. exact Hc.
  - intros [Hne Hall]. destruct m as [|c m]; [contradiction|].
    simpl in Hall. apply andb_true_iff in Hall as [Hc Hm].
    change (String c m) with (String c "" +:+ m).
    constructor; [constructor; exact Hc|apply lang_star_class, Hm].
Qed.

(** X2: [isSubresourceRegex.test(s)] holds exactly when [s] ends with a
    stem that is not empty and free of line terminators, then a dot, then
    an extension that is not empty and made of ASCII letters of either
    case. *)
Theorem isSubresourceRegex_spec (s : string) :
  RegExp.test isSubresourceRegex s = true
  <-> exists pre stem ext,
        s = pre +:+ stem +:+ "." +:+ ext
        /\ stem <> ""
        /\ JS.all (fun c => negb (RegExp.isLineTerminator c)) stem = true
        /\ ext <> ""
        /\ JS.all (fun c => RegExp.isLower c || RegExp.isUpper c) ext = true.
Proof.
  rewrite test_lang. simpl. split.
  - intros (a & m & b & -> & H & _ & Hb). rewrite (Hb eq_refl), append_nil_r.
    inversion H as [| |r1 r2 stem m' Hstem H'| | | |]; subst.
    inversion H' as [| |r1 r2 dot ext Hdot Hext| | | |]; subst.
    inversion Hdot as [|p c Hc| | | | |]; subst.
    apply Ascii.eqb_eq in Hc as <-.
    apply lang_plus_class in Hstem as [? ?], Hext as [? ?].
    exists a, stem, ext. auto.
  - intros (pre & stem & ext & -> & Hne & Hstem & Hne' & Hext).
    exists pre, (stem +:+ "." +:+ ext), "".
    rewrite append_nil_r. repeat split; [|discriminate].
    constructor; [apply lang_plus_class; auto|].
    change ("." +:+ ext) with (String "." "" +:+ ext).
    constructor; [constructor; apply Ascii.eqb_refl|].
    apply lang_plus_class; auto.
Qed.

(** ** The split of the request URL *)

Lemma urlPath_of_plain (P : string) :
  JS.lacks "?" P = true -> urlPath_of P = P /\ urlQuery_of P = None.
Proof.
  intros HP. unfold urlPath_of, urlQuery_of.
  rewrite (split_parts_lacks _ _ HP). split; reflexivity.
Qed.

Lemma urlPath_of_query (P q : string) :
  JS.lacks "?" P = true ->
  urlPath_of (P +:+ "?" +:+ q) = P
  /\ urlQuery_of (P +:+ "?" +:+ q) = Some (urlPath_of q).
Proof.
  intros HP. unfold urlPath_of, urlQuery_of.
  change ("?" +:+ q) with (String "?" q).
  rewrite (split_parts_append _ _ _ HP). split; reflexivity.
Qed.

Lemma urlPath_of_withQuery (P : string) (query : option string) :
  JS.lacks "?" P = true ->
  urlPath_of (withQuery P query) = P
  /\ urlQuery_of (withQuery P query) = urlPath_of <$> query.
Proof.
  intros HP. destruct query as [q|]; simpl.
  - apply urlPath_of_query, HP.
  - apply urlPath_of_plain, HP.
Qed.

Lemma urlPath_of_lacks (u : string) : JS.lacks "?" (urlPath_of u) = true.
Proof. apply split_parts_fst_lacks. Qed.

(** A redirect location is the new path, then [?] and the first segment
    of the query when that segment is not empty. *)
Lemma queryPart_cases (urlQuery : option string) :
  queryPart urlQuery
  = match urlQuery with
    | Some (String c q) => "?" +:+ String c q
    | _ => ""
    end.
Proof. destruct urlQuery as [[|c q]|]; reflexivity. Qed.

(** ** The handler, case by case *)

Ltac unfold_route :=
  unfold route, trailingSlashSwitch, case_never, case_ignore, case_always.

Lemma route_ignore_serves (app : NodeApp) (fs : Fs) (client : string)
    (method : option string) (u : string) :
  exists p, route app fs client ignore method u = Serve p.
Proof. unfold_route. destruct (_ && _); eexists; reflexivity. Qed.

Section HandlerFacts.

Context (app : NodeApp) (fs : Fs) (options : Options) (client : string).

Lemma handler_no_url (req : IncomingMessage) (w : World) :
  JS.truthy (url req) = false ->
  handler app fs options client req w = (ssr w, None).
Proof. unfold handler. intros ->. reflexivity. Qed.

Lemma handler_redirect (req : IncomingMessage) (w : World) (u L : string) :
  url req = Some u -> u <> "" ->
  route app fs client (default ignore (trailingSlash options)) (method req) u
  = Redirect L ->
  handler app fs options client req w = (redirect301 L w, None).
Proof.
  intros Hu Hne HL. unfold handler. rewrite Hu. simpl.
  destruct u as [|c u]; [contradiction|]. simpl. simpl in HL. rewrite HL.
  reflexivity.
Qed.

Lemma handler_serve (req : IncomingMessage) (w : World) (u p : string) :
  url req = Some u -> u <> "" ->
  route app fs client (default ignore (trailingSlash options)) (method req) u
  = Serve p ->
  handler app fs options client req w
  = (w, Some (send client (prependForwardSlash (removeBase app p)))).
Proof.
  intros Hu Hne HL. unfold handler. rewrite Hu. simpl.
  destruct u as [|c u]; [contradiction|]. simpl. simpl in HL. rewrite HL.
  reflexivity.
Qed.

End HandlerFacts.

(** X1: a request without a URL (none, or an empty one) is handed to
    [ssr], once; nothing is written on the response and the file server
    is not called. *)
Theorem handler_without_url_calls_ssr
    (app : NodeApp) (fs : Fs) (options : Options) (client : string)
    (m : option string) (w : World) :
  handler app fs options client {| url := None; method := m |} w
  = (ssr w, None)
  /\ handler app fs options client {| url := Some ""; method := m |} w
     = (ssr w, None)
  /\ ssrCalls (ssr w) = S (ssrCalls w)
  /\ res (ssr w) = res w.
Proof. repeat split. Qed.

Lemma redirect301_spec (L : string) (w : World) :
  statusCode (res (redirect301 L w)) = 301
  /\ headers (res (redirect301 L w)) !! "Location" = Some L
  /\ writableEnded (res (redirect301 L w)) = true
  /\ ssrCalls (redirect301 L w) = ssrCalls w.
Proof.
  unfold redirect301; simpl. repeat split. apply lookup_insert_eq.
Qed.

Lemma append_slash_not_root (P' : string) :
  P' <> "" -> String.eqb (P' +:+ "/") "/" = false.
Proof.
  intros HP. destruct (String.eqb_spec (P' +:+ "/") "/") as [E|]; [|reflexivity].
  destruct P' as [|c [|d P']]; [contradiction|discriminate..].
Qed.

(** ** Policy [never] *)

(** C1, as the code has it: under [never], a request for a path [P'/]
    that names a directory and is not [/] is answered by a 301 whose
    [Location] is [P'], followed by [?] and the query string when the
    request has a query string that is not empty (and holds no further
    [?]); without a query string, or with an empty one, the location is
    [P'] alone.  Nothing is handed to the file server and [ssr] is not
    called. *)
Theorem never_redirect_strips_slash
    (app : NodeApp) (fs : Fs) (options : Options) (client : string)
    (req : IncomingMessage) (w : World) (P' : string) (query : option string) :
  trailingSlash options = Some never ->
  JS.lacks "?" P' = true ->
  P' <> "" ->
  (forall q, query = Some q -> JS.lacks "?" q = true) ->
  probe_isDirectory app fs client (P' +:+ "/") = true ->
  url req = Some (withQuery (P' +:+ "/") query) ->
  let L := P' +:+ match query with
                  | Some (String c q) => "?" +:+ String c q
                  | _ => ""
                  end in
  let out := handler app fs options client req w in
  out.2 = None
  /\ statusCode (res out.1) = 301
  /\ headers (res out.1) !! "Location" = Some L
  /\ writableEnded (res out.1) = true
  /\ ssrCalls out.1 = ssrCalls w.
Proof.
  intros Hpol HP Hne Hq Hdir Hurl L out.
  assert (Hlacks : JS.lacks "?" (P' +:+ "/") = true)
    by (rewrite lacks_append, HP; reflexivity).
  destruct (urlPath_of_withQuery _ query Hlacks) as [Hpath Hquery].
  assert (Hquery' : urlQuery_of (withQuery (P' +:+ "/") query) = query).
  { rewrite Hquery. destruct query as [q|]; [|reflexivity]. simpl.
    f_equal. apply urlPath_of_plain, Hq. reflexivity. }
  assert (Hroute :
    route app fs client (default ignore (trailingSlash options)) (method req)
      (withQuery (P' +:+ "/") query) = Redirect L).
  { unfold route. rewrite Hpol, Hpath, Hquery'. simpl.
    unfold case_never.
    rewrite Hdir, (append_slash_not_root _ Hne), endsWith_append. simpl.
    rewrite slice_0_m1_snoc, queryPart_cases. reflexivity. }
  assert (Hnonempty : withQuery (P' +:+ "/") query <> "").
  { destruct P' as [|c P']; [contradiction|]. destruct query; discriminate. }
  subst out. rewrite (handler_redirect _ _ _ _ _ _ _ _ Hurl Hnonempty Hroute).
  simpl fst; simpl snd. split; [reflexivity|]. apply redirect301_spec.
Qed.

(** The theorem at [GET /about/?x=1] on the small deployment. *)
Lemma never_redirect_strips_slash_witness :
  headers (res (site never (request "GET" "/about/?x=1")).1) !! "Location"
  = Some "/about?x=1".
Proof.
  refine (proj1 (proj2 (proj2
    (never_redirect_strips_slash rootApp siteFs (siteOptions never) siteClient
       (request "GET" "/about/?x=1") freshWorld "/about" (Some "x=1")
       eq_refl eq_refl _ _ eq_refl eq_refl)))).
  - discriminate.
  - intros q [= <-]. reflexivity.
Defined.

(** C1 as stated fails on the query string: of [/about/?a=1?b=2] only
    [a=1] comes back, and the empty query string of [/about/?] is not
    re-attached after a [?]. *)
Lemma never_redirect_query_counterexample :
  headers (res (site never (request "GET" (withQuery "/about/" (Some "a=1?b=2")))).1)
    !! "Location" = Some "/about?a=1"
  /\ headers (res (site never (request "GET" (withQuery "/about/" (Some "a=1?b=2")))).1)
    !! "Location" <> Some (withQuery "/about" (Some "a=1?b=2"))
  /\ headers (res (site never (request "GET" (withQuery "/about/" (Some "")))).1)
    !! "Location" = Some "/about"
  /\ headers (res (site never (request "GET" (withQuery "/about/" (Some "")))).1)
    !! "Location" <> Some (withQuery "/about" (Some "")).
Proof. vm_compute. repeat split; discriminate. Qed.

(** ** Policy [always] *)

Lemma route_always (app : NodeApp) (fs : Fs) (client : string)
    (method : option string) (u : string) :
  route app fs client always method u
  = if negb (JS.endsWith (urlPath_of u) "/")
       && negb (RegExp.test isSubresourceRegex (urlPath_of u))
       && negb (isActionRequest app method (urlPath_of u))
    then Redirect ((urlPath_of u +:+ "/") +:+ queryPart (urlQuery_of u))
    else Serve (urlPath_of u).
Proof.
  unfold route, trailingSlashSwitch, case_always.
  destruct (_ && _); reflexivity.
Qed.

(** C2, the code at [GET /logo.PNG] under [always]: the path has no
    trailing slash, its extension is not made of lowercase letters and
    the request is no action, yet the case-insensitive pattern takes it
    for a subresource and the file is served without a redirect; the
    pattern as its comment words it does not match.  On
    [/logo?a=1?b=2] the redirect keeps only [a=1] of the query string. *)
Theorem always_uppercase_extension_served :
  RegExp.test isSubresourceRegex "/logo.PNG" = true
  /\ RegExp.test isSubresourceRegex_lowercase "/logo.PNG" = false
  /\ isActionRequest rootApp (Some "GET") "/logo.PNG" = false
  /\ site always (request "GET" "/logo.PNG")
     = (freshWorld, Some (send siteClient "/logo.PNG"))
  /\ route rootApp siteFs siteClient always (Some "GET") "/logo?a=1?b=2"
     = Redirect "/logo/?a=1".
Proof. repeat split; vm_compute; reflexivity. Qed.

(** X3: under [always], a request for a path [P] without trailing slash
    that the subresource pattern does not match and that is no action
    [POST] is answered by a 301 whose [Location] is [P/], followed by [?]
    and the query string when the request has one that is not empty (and
    holds no further [?]); nothing is handed to the file server and [ssr]
    is not called. *)
Theorem always_redirect_adds_slash
    (app : NodeApp) (fs : Fs) (options : Options) (client : string)
    (req : IncomingMessage) (w : World) (P : string) (query : option string) :
  trailingSlash options = Some always ->
  JS.lacks "?" P = true ->
  (forall q, query = Some q -> JS.lacks "?" q = true) ->
  withQuery P query <> "" ->
  JS.endsWith P "/" = false ->
  RegExp.test isSubresourceRegex P = false ->
  isActionRequest app (method req) P = false ->
  url req = Some (withQuery P query) ->
  let L := (P +:+ "/") +:+ match query with
                           | Some (String c q) => "?" +:+ String c q
                           | _ => ""
                           end in
  let out := handler app fs options client req w in
  out.2 = None
  /\ statusCode (res out.1) = 301
  /\ headers (res out.1) !! "Location" = Some L
  /\ writableEnded (res out.1) = true
  /\ ssrCalls out.1 = ssrCalls w.
Proof.
  intros Hpol HP Hq Hne Hslash Hsub Haction Hurl L out.
  destruct (urlPath_of_withQuery _ query HP) as [Hpath Hquery].
  assert (Hquery' : urlQuery_of (withQuery P query) = query).
  { rewrite Hquery. destruct query as [q|]; [|reflexivity]. simpl.
    f_equal. apply urlPath_of_plain, Hq. reflexivity. }
  assert (Hroute :
    route app fs client (default ignore (trailingSlash options)) (method req)
      (withQuery P query) = Redirect L).
  { rewrite Hpol. simpl. rewrite route_always, Hpath, Hquery'.
    rewrite Hslash, Hsub, Haction. simpl. rewrite queryPart_cases.
    reflexivity. }
  subst out. rewrite (handler_redirect _ _ _ _ _ _ _ _ Hurl Hne Hroute).
  simpl fst; simpl snd. split; [reflexivity|]. apply redirect301_spec.
Qed.

(** The theorem at [GET /logo?x=1] on the small deployment. *)
Lemma always_redirect_adds_slash_witness :
  headers (res (site always (request "GET" "/logo?x=1")).1) !! "Location"
  = Some "/logo/?x=1".
Proof.
  refine (proj1 (proj2 (proj2
    (always_redirect_adds_slash rootApp siteFs (siteOptions always) siteClient
       (request "GET" "/logo?x=1") freshWorld "/logo" (Some "x=1")
       eq_refl eq_refl _ _ eq_refl eq_refl eq_refl eq_refl)))).
  - intros q [= <-]. reflexivity.
  - discriminate.
Defined.

(** ** Policy [ignore] *)

(** C4: under [ignore] (also when the option is left out) the handler
    writes nothing on the response, whatever the request; and for a
    request with a URL the serve target is [P + "/index.html"] when [P]
    names a directory and has no trailing slash, and [P] otherwise: that
    target, base-stripped, goes to the file server. *)
Theorem ignore_serves_index_of_directory
    (app : NodeApp) (fs : Fs) (options : Options) (client : string)
    (req : IncomingMessage) (w : World) :
  default ignore (trailingSlash options) = ignore ->
  res (handler app fs options client req w).1 = res w
  /\ (forall u,
        url req = Some u -> u <> "" ->
        let P := urlPath_of u in
        let target :=
          if probe_isDirectory app fs client P && negb (JS.endsWith P "/")
          then P +:+ "/index.html" else P in
        route app fs client ignore (method req) u = Serve target
        /\ handler app fs options client req w
           = (w, Some (send client
                         (prependForwardSlash (removeBase app target))))).
Proof.
  intros Hpol. split.
  - unfold handler. rewrite Hpol. destruct (JS.truthy (url req)); [|reflexivity].
    destruct (route_ignore_serves app fs client (method req)
                (default "" (url req))) as [p ->].
    reflexivity.
  - intros u Hu Hne P target.
    assert (Hroute : route app fs client ignore (method req) u = Serve target).
    { unfold_route. subst target P. destruct (_ && _); reflexivity. }
    split; [exact Hroute|].
    apply (handler_serve _ _ _ _ _ _ u); [assumption..|].
    rewrite Hpol. exact Hroute.
Qed.

(** The theorem at [GET /about] with the option left out. *)
Lemma ignore_serves_index_of_directory_witness :
  handler rootApp siteFs siteDefaultOptions siteClient
    (request "GET" "/about") freshWorld
  = (freshWorld, Some (send siteClient "/about/index.html")).
Proof.
  refine (proj2 (proj2 (ignore_serves_index_of_directory rootApp siteFs
                          siteDefaultOptions siteClient
                          (request "GET" "/about") freshWorld eq_refl)
                   "/about" eq_refl _)).
  discriminate.
Defined.

(** ** [never] falls through to [ignore] *)

(** C6: under [never] no redirect is produced exactly when the path is
    not a directory, or is [/], or has no trailing slash; on every such
    input the switch completes as it does under [ignore]; and the
    decision under [never] is the composition the specification words:
    redirect, or else the [ignore] procedure. *)
Theorem never_without_redirect_is_ignore
    (app : NodeApp) (method : option string) (P : string)
    (Q : option string) (isDir hasSlash : bool) :
  let c_never := trailingSlashSwitch app never method P Q isDir hasSlash in
  let c_ignore := trailingSlashSwitch app ignore method P Q isDir hasSlash in
  ((forall L, c_never <> Return301 L)
   <-> (isDir = false \/ P = "/" \/ hasSlash = false))
  /\ ((forall L, c_never <> Return301 L) -> c_never = c_ignore)
  /\ decision_of c_never = spec_never P Q isDir hasSlash
  /\ decision_of c_ignore = spec_ignore P isDir hasSlash.
Proof.
  simpl. unfold case_never, case_ignore, spec_never, spec_ignore.
  destruct (String.eqb_spec P "/") as [->|HP];
    [rewrite bool_decide_eq_true_2 by reflexivity
    |rewrite bool_decide_eq_false_2 by assumption];
    destruct isDir, hasSlash; simpl;
    (split; [split; [intros H; try tauto; exfalso; eapply H; reflexivity
                    |intros H L; try discriminate;
                     destruct H as [H|[H|H]]; congruence]
            |split; [intros H; try reflexivity; exfalso; eapply H; reflexivity
                    |split; reflexivity]]).
Qed.

(** The theorem at [/about], a directory requested without a trailing
    slash. *)
Lemma never_without_redirect_is_ignore_witness :
  trailingSlashSwitch rootApp never (Some "GET") "/about" None true false
  = trailingSlashSwitch rootApp ignore (Some "GET") "/about" None true false.
Proof.
  refine (proj1 (proj2
    (never_without_redirect_is_ignore rootApp (Some "GET") "/about" None
       true false)) _).
  intros L. discriminate.
Defined.

(** ** The listeners on the stream *)

Section Listeners.

Context (options : Options).

Lemma emit_all_app (evs1 evs2 : list StreamEvent) (sw : SendStream * World) :
  emit_all options (evs1 ++ evs2) sw
  = emit_all options evs2 (emit_all options evs1 sw).
Proof. apply fold_left_app. Qed.

Lemma emit_all_cons (ev : StreamEvent) (evs : list StreamEvent)
    (sw : SendStream * World) :
  emit_all options (ev :: evs) sw = emit_all options evs (emit options sw ev).
Proof. reflexivity. Qed.

Lemma elem_of_later (x y : StreamEvent) (evs : list StreamEvent) :
  x <> y -> bool_decide (x ∈ y :: evs) = bool_decide (x ∈ evs).
Proof.
  intros Hxy. apply bool_decide_ext. rewrite elem_of_cons.
  split; [intros [H|H]; [contradiction|exact H]|intros H; right; exact H].
Qed.

(** What the [error] listener leaves alone. *)
Lemma on_error_frame (err : string) (s : SendStream) (w : World) :
  pathname (on_error err s w).1 = pathname s
  /\ root (on_error err s w).1 = root s
  /\ dotfiles (on_error err s w).1 = dotfiles s
  /\ forwardError (on_error err s w).1 = forwardError s
  /\ headers (res (on_error err s w).2) = headers (res w).
Proof.
  unfold on_error, writeHead.
  destruct (forwardError s) eqn:E, (headersSent s); simpl; rewrite ?E;
    repeat split.
Qed.

(** The listeners never change [pathname]. *)
Lemma emit_all_pathname (evs : list StreamEvent) (sw : SendStream * World) :
  pathname (emit_all options evs sw).1 = pathname sw.1.
Proof.
  revert sw. induction evs as [|ev evs IH]; intros sw; [reflexivity|].
  rewrite emit_all_cons, IH. destruct ev; try reflexivity.
  apply on_error_frame.
Qed.

(** As long as no error is signalled, the listeners call neither [ssr]
    nor [writeHead] nor [end] and throw nothing; [forwardError] records
    whether a file was found, [headersSent] whether bytes were
    written. *)
Lemma emit_all_without_error (evs : list StreamEvent) (s : SendStream)
    (w : World) :
  (forall e, EvError e ∉ evs) ->
  let sw' := emit_all options evs (s, w) in
  forwardError sw'.1 = forwardError s || bool_decide (EvFile ∈ evs)
  /\ headersSent sw'.1 = headersSent s || bool_decide (EvWrite ∈ evs)
  /\ ssrCalls sw'.2 = ssrCalls w
  /\ statusCode (res sw'.2) = statusCode (res w)
  /\ body (res sw'.2) = body (res w)
  /\ writableEnded (res sw'.2) = writableEnded (res w)
  /\ uncaught sw'.2 = uncaught w
  /\ stderr sw'.2 = stderr w.
Proof.
  revert s w. induction evs as [|ev evs IH]; intros s w Hne.
  - simpl. rewrite !orb_false_r. repeat split.
  - assert (Hne' : forall e, EvError e ∉ evs).
    { intros e He. apply (Hne e). right. exact He. }
    destruct ev as [e| | |].
    + exfalso. apply (Hne e). left.
    + rewrite emit_all_cons. simpl emit.
      destruct (IH s (on_headers options s w) Hne')
        as (Hf & Hh & Hs & Hc & Hb & He & Hu & Hl).
      cbv zeta. rewrite Hf, Hh, Hs, Hc, Hb, He, Hu, Hl.
      rewrite (elem_of_later EvFile EvHeaders) by discriminate.
      rewrite (elem_of_later EvWrite EvHeaders) by discriminate.
      unfold on_headers. destruct (JS.startsWith _ _); repeat split.
    + rewrite emit_all_cons. simpl emit.
      destruct (IH (on_file s) w Hne')
        as (Hf & Hh & Hs & Hc & Hb & He & Hu & Hl).
      cbv zeta. rewrite Hf, Hh, Hs, Hc, Hb, He, Hu, Hl.
      rewrite (bool_decide_eq_true_2 (EvFile ∈ EvFile :: evs)) by left.
      rewrite (elem_of_later EvWrite EvFile) by discriminate.
      simpl. rewrite orb_true_r. repeat split.
    + rewrite emit_all_cons. simpl emit.
      destruct (IH (sent s) w Hne')
        as (Hf & Hh & Hs & Hc & Hb & He & Hu & Hl).
      cbv zeta. rewrite Hf, Hh, Hs, Hc, Hb, He, Hu, Hl.
      rewrite (bool_decide_eq_true_2 (EvWrite ∈ EvWrite :: evs)) by left.
      rewrite (elem_of_later EvFile EvWrite) by discriminate.
      simpl. rewrite orb_true_r. repeat split.
Qed.

(** The headers after any events: [Cache-Control] is set when the
    [headers] event came and the pathname is under the assets prefix;
    nothing else is touched. *)
Lemma emit_all_headers (evs : list StreamEvent) (s : SendStream) (w : World) :
  headers (res (emit_all options evs (s, w)).2)
  = if JS.startsWith (pathname s) ("/" +:+ assets options +:+ "/")
       && bool_decide (EvHeaders ∈ evs)
    then <["Cache-Control" := immutableCacheControl]> (headers (res w))
    else headers (res w).
Proof.
  revert s w. induction evs as [|ev evs IH]; intros s w.
  - simpl. rewrite andb_false_r. reflexivity.
  - rewrite emit_all_cons. destruct ev as [e| | |]; simpl emit.
    + destruct (on_error_frame e s w) as (Hp & _ & _ & _ & Hh).
      destruct (on_error e s w) as [s1 w1]. simpl in Hp, Hh.
      rewrite IH, Hp, Hh.
      rewrite (elem_of_later EvHeaders (EvError e)) by discriminate.
      reflexivity.
    + rewrite IH.
      rewrite (bool_decide_eq_true_2 (EvHeaders ∈ EvHeaders :: evs)) by left.
      rewrite andb_true_r. unfold on_headers.
      destruct (JS.startsWith _ _); simpl; [|reflexivity].
      destruct (bool_decide _); [apply insert_insert_eq|reflexivity].
    + rewrite IH.
      rewrite (elem_of_later EvHeaders EvFile) by discriminate.
      reflexivity.
    + rewrite IH.
      rewrite (elem_of_later EvHeaders EvWrite) by discriminate.
      reflexivity.
Qed.

End Listeners.

(** ** Requests that reach the file server *)

Section Piped.

Context (app : NodeApp) (fs : Fs) (options : Options) (client : string).

(** When the handler pipes a stream it has written nothing, and the
    stream is [send] on the base-stripped pathname. *)
Lemma handler_piped (req : IncomingMessage) (w w' : World) (s : SendStream) :
  handler app fs options client req w = (w', Some s) ->
  w' = w
  /\ exists p, s = send client (prependForwardSlash (removeBase app p)).
Proof.
  unfold handler. destruct (JS.truthy (url req)); [|discriminate].
  destruct (route _ _ _ _ _ _) as [L|p]; [discriminate|].
  intros [= <- <-]. split; [reflexivity|]. exists p. reflexivity.
Qed.

Lemma prependForwardSlash_startsWith (pth : string) :
  JS.startsWith (prependForwardSlash pth) "/" = true.
Proof.
  unfold prependForwardSlash.
  destruct (JS.startsWith pth "/") eqn:E; [exact E|].
  destruct pth; reflexivity.
Qed.

(** C3, as the code has it: for a request that reached the file server
    and a run of its events with one error in it.  When no file was
    signalled before the error, [ssr] has been called exactly once and
    the response has no status, body or end written by the handler.  When
    a file was signalled before it, [ssr] has not been called; and if no
    byte of the response had been written before the error, the response
    is a 500 that ends with "Internal server error" and nothing was
    thrown. *)
Theorem error_falls_back_before_file_and_is_500_after
    (req : IncomingMessage) (w w' : World) (s : SendStream)
    (pre post : list StreamEvent) (err : string) :
  handler app fs options client req w = (w', Some s) ->
  (forall e, EvError e ∉ pre) ->
  (forall e, EvError e ∉ post) ->
  let final := (emit_all options (pre ++ EvError err :: post) (s, w')).2 in
  (EvFile ∉ pre ->
     ssrCalls final = S (ssrCalls w)
     /\ statusCode (res final) = statusCode (res w)
     /\ body (res final) = body (res w)
     /\ writableEnded (res final) = writableEnded (res w))
  /\ (EvFile ∈ pre ->
        ssrCalls final = ssrCalls w
        /\ (EvWrite ∉ pre ->
            statusCode (res final) = 500
            /\ body (res final) = body (res w) +:+ "Internal server error"
            /\ writableEnded (res final) = true
            /\ uncaught final = uncaught w)).
Proof.
  intros Hh Hpre Hpost final.
  destruct (handler_piped _ _ _ _ Hh) as [-> [p ->]].
  subst final. rewrite emit_all_app, emit_all_cons.
  pose proof (emit_all_without_error options pre
                (send client (prependForwardSlash (removeBase app p))) w Hpre)
    as (Hf & Hs & Hn & Hc & Hb & He & Hu & _).
  destruct (emit_all options pre _) as [s1 w1].
  simpl in Hf, Hs, Hn, Hc, Hb, He, Hu. simpl emit.
  split; intros Hfile.
  - assert (Hstep : on_error err s1 w1 = (s1, ssr w1)).
    { unfold on_error. rewrite Hf, bool_decide_eq_false_2 by assumption.
      reflexivity. }
    rewrite Hstep.
    pose proof (emit_all_without_error options post s1 (ssr w1) Hpost)
      as (_ & _ & Hn' & Hc' & Hb' & He' & _).
    cbv zeta in Hn', Hc', Hb', He'. rewrite Hn', Hc', Hb', He'. simpl.
    rewrite Hn, Hc, Hb, He. repeat split.
  - rewrite bool_decide_eq_true_2 in Hf by assumption. split.
    + unfold on_error, writeHead. rewrite Hf.
      destruct (headersSent s1);
        match goal with
        | |- context [emit_all options post (?s2, ?w2)] =>
            pose proof (emit_all_without_error options post s2 w2 Hpost)
              as (_ & _ & Hn' & _)
        end;
        cbv zeta in Hn'; rewrite Hn'; simpl; exact Hn.
    + intros Hwrite. rewrite bool_decide_eq_false_2 in Hs by assumption.
      unfold on_error, writeHead. rewrite Hf, Hs.
      match goal with
      | |- context [emit_all options post (?s2, ?w2)] =>
          pose proof (emit_all_without_error options post s2 w2 Hpost)
            as (_ & _ & _ & Hc' & Hb' & He' & Hu' & _)
      end.
      cbv zeta in Hc', Hb', He', Hu'. rewrite Hc', Hb', He', Hu'. simpl.
      rewrite Hb, Hu. repeat split.
Qed.

(** C7: for a request that reached the file server, once the [headers]
    event has come the response carries the immutable [Cache-Control]
    value (which it did not carry before) exactly when the resolved
    pathname starts with [/], the assets name and [/]; for every other
    pathname the handler leaves the headers as they were, whatever the
    events. *)
Theorem cache_control_iff_under_assets
    (req : IncomingMessage) (w w' : World) (s : SendStream)
    (evs : list StreamEvent) :
  handler app fs options client req w = (w', Some s) ->
  let final := (emit_all options evs (s, w')).2 in
  let hashed := JS.startsWith (pathname s) ("/" +:+ assets options +:+ "/") in
  (EvHeaders ∈ evs ->
   headers (res w) !! "Cache-Control" <> Some immutableCacheControl ->
   (headers (res final) !! "Cache-Control" = Some immutableCacheControl
    <-> hashed = true))
  /\ (hashed = false -> headers (res final) = headers (res w)).
Proof.
  intros Hh final hashed.
  destruct (handler_piped _ _ _ _ Hh) as [-> _].
  subst final. rewrite emit_all_headers. fold hashed. split.
  - intros Hev Hfresh. rewrite (bool_decide_eq_true_2 _ Hev), andb_true_r.
    destruct hashed.
    + rewrite lookup_insert_eq. split; reflexivity.
    + split; [intros H; contradiction|discriminate].
  - intros ->. reflexivity.
Qed.

(** C8: the stream the handler pipes is [send] on the pathname the switch
    left for the request URL, base-stripped and given its leading slash;
    it is created with [dotfiles: 'allow'] exactly when that pathname
    starts with [/.well-known/], and with ['deny'] otherwise, whatever
    the options. *)
Theorem dotfiles_allowed_only_under_well_known
    (req : IncomingMessage) (w w' : World) (s : SendStream) :
  handler app fs options client req w = (w', Some s) ->
  (exists u p,
     url req = Some u
     /\ route app fs client (default ignore (trailingSlash options))
          (method req) u = Serve p
     /\ pathname s = prependForwardSlash (removeBase app p))
  /\ (dotfiles s = allow <-> JS.startsWith (pathname s) "/.well-known/" = true)
  /\ (dotfiles s = deny <-> JS.startsWith (pathname s) "/.well-known/" = false)
  /\ JS.startsWith (pathname s) "/" = true
  /\ root s = client.
Proof.
  unfold handler. destruct (url req) as [[|c u]|] eqn:Hurl; try discriminate.
  simpl. destruct (route _ _ _ _ _ _) as [L|p] eqn:Hroute; [discriminate|].
  intros [= <- <-]. simpl.
  split; [|split; [|split; [|split]]].
  - exists (String c u), p. repeat split. exact Hroute.
  - destruct (JS.startsWith _ "/.well-known/"); split; congruence.
  - destruct (JS.startsWith _ "/.well-known/"); split; congruence.
  - apply prependForwardSlash_startsWith.
  - reflexivity.
Qed.

End Piped.

Lemma no_error_in_nil (e : string) : EvError e ∉ @nil StreamEvent.
Proof. apply not_elem_of_nil. Qed.

Lemma no_error_in_file_headers (e : string) : EvError e ∉ [EvFile; EvHeaders].
Proof.
  intros H. apply elem_of_cons in H as [H|H]; [discriminate|].
  apply elem_of_cons in H as [H|H]; [discriminate|].
  revert H. apply not_elem_of_nil.
Qed.

(** The theorem on the small deployment: [GET /missing.png] whose stream
    errors at once, and [GET /about] whose stream errors after the file
    was found and before it wrote anything. *)
Lemma error_falls_back_before_file_and_is_500_after_witness :
  (let final :=
     (emit_all (siteOptions ignore) ([] ++ [EvError "ENOENT"])
        (send siteClient "/missing.png", freshWorld)).2 in
   ssrCalls final = 1%nat /\ statusCode (res final) = 200
   /\ body (res final) = "" /\ writableEnded (res final) = false)
  /\ (let final :=
        (emit_all (siteOptions ignore) ([EvFile; EvHeaders] ++ [EvError "EIO"])
           (send siteClient "/about/index.html", freshWorld)).2 in
      statusCode (res final) = 500
      /\ body (res final) = "Internal server error"
      /\ writableEnded (res final) = true /\ uncaught final = []).
Proof.
  split.
  - refine (proj1 (error_falls_back_before_file_and_is_500_after
                     rootApp siteFs (siteOptions ignore) siteClient
                     (request "GET" "/missing.png") freshWorld freshWorld
                     (send siteClient "/missing.png") [] [] "ENOENT"
                     eq_refl no_error_in_nil no_error_in_nil) _).
    apply not_elem_of_nil.
  - refine (proj2 (proj2 (error_falls_back_before_file_and_is_500_after
                     rootApp siteFs (siteOptions ignore) siteClient
                     (request "GET" "/about") freshWorld freshWorld
                     (send siteClient "/about/index.html")
                     [EvFile; EvHeaders] [] "EIO"
                     eq_refl no_error_in_file_headers no_error_in_nil) _) _).
    + left.
    + intros H. apply elem_of_cons in H as [H|H]; [discriminate|].
      apply elem_of_cons in H as [H|H]; [discriminate|].
      revert H. apply not_elem_of_nil.
Defined.

(** C3 as stated fails once the file is streaming: for [GET /about],
    after the file was found, the headers signalled and bytes written, an
    error leaves the response as it was sent, a 200 that is not ended and
    has no "Internal server error" in it, and [res.writeHead(500)] throws
    out of the listener. *)
Lemma error_after_bytes_is_no_500 :
  (site ignore (request "GET" "/about")).2
  = Some (send siteClient "/about/index.html")
  /\ statusCode (res (emit_all (siteOptions ignore)
                        [EvFile; EvHeaders; EvWrite; EvError "EIO"]
                        (send siteClient "/about/index.html", freshWorld)).2)
     = 200
  /\ body (res (emit_all (siteOptions ignore)
                  [EvFile; EvHeaders; EvWrite; EvError "EIO"]
                  (send siteClient "/about/index.html", freshWorld)).2) = ""
  /\ writableEnded (res (emit_all (siteOptions ignore)
                           [EvFile; EvHeaders; EvWrite; EvError "EIO"]
                           (send siteClient "/about/index.html", freshWorld)).2)
     = false
  /\ uncaught (emit_all (siteOptions ignore)
                 [EvFile; EvHeaders; EvWrite; EvError "EIO"]
                 (send siteClient "/about/index.html", freshWorld)).2
     = ["ERR_HTTP_HEADERS_SENT"].
Proof. repeat split. Qed.

(** The theorem at a hashed asset of the small deployment. *)
Lemma cache_control_iff_under_assets_witness :
  headers (res (emit_all (siteOptions ignore) [EvFile; EvHeaders]
                  (send siteClient "/_astro/app.3f9a.js", freshWorld)).2)
    !! "Cache-Control" = Some immutableCacheControl.
Proof.
  refine (proj2 (proj1 (cache_control_iff_under_assets
                          rootApp siteFs (siteOptions ignore) siteClient
                          (request "GET" "/_astro/app.3f9a.js")
                          freshWorld freshWorld
                          (send siteClient "/_astro/app.3f9a.js")
                          [EvFile; EvHeaders] eq_refl) _ _) eq_refl).
  - right. left.
  - discriminate.
Defined.

(** The theorem at [GET /.well-known/security.txt] under [always]. *)
Lemma dotfiles_allowed_only_under_well_known_witness :
  (exists u p,
     Some "/.well-known/security.txt" = Some u
     /\ route rootApp siteFs siteClient always (Some "GET") u = Serve p
     /\ "/.well-known/security.txt" = prependForwardSlash (removeBase rootApp p))
  /\ dotfiles (send siteClient "/.well-known/security.txt") = allow
  /\ JS.startsWith "/.well-known/security.txt" "/" = true.
Proof.
  pose proof (dotfiles_allowed_only_under_well_known
                rootApp siteFs (siteOptions always) siteClient
                (request "GET" "/.well-known/security.txt")
                freshWorld freshWorld
                (send siteClient "/.well-known/security.txt") eq_refl)
    as (Htie & Hallow & _ & Hslash & _).
  split; [exact Htie|].
  split; [apply Hallow; reflexivity|exact Hslash].
Defined.

(** ** Redirect locations and re-normalization *)

Section Locations.

Context (app : NodeApp) (fs : Fs) (client : string).

(** The decision reads the URL through its path and the query part of
    the location only. *)
Lemma route_ext (policy : TrailingSlash) (method : option string)
    (u1 u2 : string) :
  urlPath_of u1 = urlPath_of u2 ->
  queryPart (urlQuery_of u1) = queryPart (urlQuery_of u2) ->
  route app fs client policy method u1 = route app fs client policy method u2.
Proof.
  intros HP HQ. unfold_route. rewrite HP, HQ. reflexivity.
Qed.

Lemma urlPath_of_location (P : string) (Q : option string) :
  JS.lacks "?" P = true -> urlPath_of (P +:+ queryPart Q) = P.
Proof.
  intros HP. rewrite queryPart_cases. destruct Q as [[|c q]|].
  - rewrite append_nil_r. apply urlPath_of_plain, HP.
  - apply urlPath_of_query, HP.
  - rewrite append_nil_r. apply urlPath_of_plain, HP.
Qed.

Lemma lacks_slice_0_m1 (sep : ascii) (s : string) :
  JS.lacks sep s = true -> JS.lacks sep (JS.slice_0_m1 s) = true.
Proof.
  induction s as [|c s IH]; [reflexivity|].
  cbn [JS.lacks]. intros [Hc Hs]%andb_true_iff.
  destruct s as [|d s]; [reflexivity|].
  change (JS.slice_0_m1 (String c (String d s)))
    with (String c (JS.slice_0_m1 (String d s))).
  cbn [JS.lacks]. rewrite Hc, (IH Hs). reflexivity.
Qed.

(** Under [never] a path without a trailing slash is served. *)
Lemma route_never_without_slash (method : option string) (u : string) :
  JS.endsWith (urlPath_of u) "/" = false ->
  exists p, route app fs client never method u = Serve p.
Proof.
  intros H. unfold_route. rewrite H, andb_false_r. destruct (_ && _); eexists; reflexivity.
Qed.

(** What a redirect under [never] says of the request path. *)
Lemma route_never_redirect (method : option string) (u L : string) :
  route app fs client never method u = Redirect L ->
  exists P', urlPath_of u = P' +:+ "/"
             /\ L = P' +:+ queryPart (urlQuery_of u).
Proof.
  unfold route, trailingSlashSwitch, case_never, case_ignore.
  destruct (probe_isDirectory app fs client (urlPath_of u)),
    (String.eqb (urlPath_of u) "/"),
    (JS.endsWith (urlPath_of u) "/") eqn:Hslash; simpl; try discriminate.
  intros [= <-]. apply endsWith_inv in Hslash as [P' HP'].
  exists P'. rewrite HP', slice_0_m1_snoc. split; reflexivity.
Qed.

Lemma doubled_slash (P' : string) :
  JS.endsWith (P' +:+ "/") "//" = false -> JS.endsWith P' "/" = false.
Proof.
  intros H. destruct (JS.endsWith P' "/") eqn:E; [|reflexivity].
  apply endsWith_inv in E as [P'' ->].
  rewrite append_assoc in H. change ("/" +:+ "/") with "//" in H.
  rewrite endsWith_append in H. discriminate.
Qed.

Lemma append_last_inj (a b : string) (c d : ascii) :
  a +:+ String c "" = b +:+ String d "" -> c = d.
Proof.
  revert b. induction a as [|x a IH]; intros [|y b] H.
  - injection H as ->. reflexivity.
  - destruct b; discriminate.
  - destruct a; discriminate.
  - rewrite !append_cons in H. injection H as _ H. exact (IH _ H).
Qed.

Lemma index_html_without_slash (P : string) :
  JS.endsWith (P +:+ "/index.html") "/" = false.
Proof.
  destruct (JS.endsWith _ "/") eqn:E; [|reflexivity].
  apply endsWith_inv in E as [pre E].
  change "/index.html" with ("/index.htm" +:+ "l") in E.
  rewrite <- append_assoc in E. apply append_last_inj in E. discriminate.
Qed.

(** Whether a URL is served depends on its path only (and on the method
    and the file system), not on its query string. *)
Lemma route_same_path (policy : TrailingSlash) (method : option string)
    (u u' p : string) :
  urlPath_of u' = urlPath_of u ->
  route app fs client policy method u = Serve p ->
  exists p', route app fs client policy method u' = Serve p'.
Proof.
  intros HP. unfold route. rewrite HP. unfold_route.
  destruct policy.
  - destruct (_ && _ && _); [discriminate|].
    destruct (_ && _); eexists; reflexivity.
  - destruct (_ && _); eexists; reflexivity.
  - destruct (_ && _ && _); [discriminate|]. eexists; reflexivity.
Qed.

(** A serve target is the request path, or under [never] and [ignore]
    the request path followed by [/index.html]. *)
Lemma route_serve_target (policy : TrailingSlash) (method : option string)
    (u p : string) :
  route app fs client policy method u = Serve p ->
  p = urlPath_of u
  \/ (policy <> always /\ p = urlPath_of u +:+ "/index.html").
Proof.
  unfold_route. destruct policy.
  - destruct (_ && _ && _); [discriminate|].
    destruct (_ && _); intros [= <-]; [right; split; [discriminate|]|left];
      reflexivity.
  - destruct (_ && _); intros [= <-]; [right; split; [discriminate|]|left];
      reflexivity.
  - destruct (_ && _ && _); [discriminate|]. intros [= <-]. left; reflexivity.
Qed.

(** C5, as the code has it.  A path on which the normalizer serves is
    served again whatever query string it comes with, and so is the
    pathname it is served from; [ignore] never redirects; the location of
    a redirect under [always] is served when it is requested in turn; and
    so is the location of a redirect under [never], provided the request
    path ended in one slash only. *)
Theorem renormalizing_does_not_redirect
    (policy : TrailingSlash) (method method' : option string) (u : string) :
  (forall p query',
     route app fs client policy method u = Serve p ->
     exists p', route app fs client policy method
                  (withQuery (urlPath_of u) query') = Serve p')
  /\ (forall p,
        route app fs client policy method u = Serve p ->
        exists p', route app fs client policy method p = Serve p')
  /\ (exists p, route app fs client ignore method u = Serve p)
  /\ (forall L,
        route app fs client always method u = Redirect L ->
        exists p, route app fs client always method' L = Serve p)
  /\ (forall L,
        route app fs client never method u = Redirect L ->
        JS.endsWith (urlPath_of u) "//" = false ->
        exists p, route app fs client never method' L = Serve p).
Proof.
  split; [|split; [|split; [|split]]].
  - intros p query'. apply route_same_path.
    apply (urlPath_of_withQuery _ query' (urlPath_of_lacks u)).
  - intros p Hserve.
    destruct (route_serve_target _ _ _ _ Hserve) as [->|[Hpol ->]].
    + revert Hserve. apply route_same_path.
      apply urlPath_of_plain, urlPath_of_lacks.
    + assert (HP : urlPath_of (urlPath_of u +:+ "/index.html")
                   = urlPath_of u +:+ "/index.html").
      { apply urlPath_of_plain.
        rewrite lacks_append, urlPath_of_lacks. reflexivity. }
      destruct policy; [|apply route_ignore_serves|contradiction].
      apply route_never_without_slash. rewrite HP.
      apply index_html_without_slash.
  - apply route_ignore_serves.
  - intros L. rewrite route_always.
    destruct (_ && _ && _); [|discriminate]. intros [= <-].
    assert (HP : urlPath_of ((urlPath_of u +:+ "/") +:+ queryPart (urlQuery_of u))
                 = urlPath_of u +:+ "/").
    { apply urlPath_of_location.
      rewrite lacks_append, urlPath_of_lacks. reflexivity. }
    rewrite route_always, HP, endsWith_append. simpl.
    eexists; reflexivity.
  - intros L HL Hdouble.
    apply route_never_redirect in HL as (P' & HP' & ->).
    apply route_never_without_slash.
    pose proof (urlPath_of_lacks u) as Hlacks. rewrite HP' in Hlacks, Hdouble.
    rewrite lacks_append in Hlacks. apply andb_true_iff in Hlacks as [Hlacks _].
    rewrite (urlPath_of_location _ _ Hlacks). apply doubled_slash, Hdouble.
Qed.

(** C10: a query string that is empty counts as none, so a redirect
    location of [P?] holds no [?]; and what follows a second [?] of the
    URL has no part in the decision, hence none in a redirect
    location. *)
Theorem redirect_drops_empty_and_repeated_query
    (policy : TrailingSlash) (method : option string) (P q rest : string) :
  JS.lacks "?" P = true ->
  JS.lacks "?" q = true ->
  route app fs client policy method (P +:+ "?")
  = route app fs client policy method P
  /\ (forall L,
        route app fs client policy method (P +:+ "?") = Redirect L ->
        JS.lacks "?" L = true)
  /\ route app fs client policy method (P +:+ "?" +:+ q +:+ "?" +:+ rest)
     = route app fs client policy method (P +:+ "?" +:+ q).
Proof.
  intros HP Hq.
  destruct (urlPath_of_plain P HP) as [HP0 HQ0].
  destruct (urlPath_of_query P "" HP) as [HP1 HQ1].
  change ("?" +:+ "") with "?" in HP1, HQ1.
  destruct (urlPath_of_query P q HP) as [HP2 HQ2].
  destruct (urlPath_of_query P (q +:+ "?" +:+ rest) HP) as [HP3 HQ3].
  destruct (urlPath_of_query q rest Hq) as [Hq3 _].
  destruct (urlPath_of_plain q Hq) as [Hq2 _].
  assert (Hempty : route app fs client policy method (P +:+ "?")
                   = route app fs client policy method P).
  { apply route_ext; [congruence|]. rewrite HQ0, HQ1. reflexivity. }
  split; [exact Hempty|split].
  - intros L. rewrite Hempty. unfold route. rewrite HP0, HQ0.
    unfold trailingSlashSwitch, case_never, case_ignore, case_always.
    change (queryPart None) with "". rewrite !append_nil_r.
    destruct policy.
    + destruct (_ && _ && _); [|destruct (_ && _); discriminate].
      intros [= <-]. apply lacks_slice_0_m1, HP.
    + destruct (_ && _); discriminate.
    + destruct (_ && _ && _); [|discriminate].
      intros [= <-]. rewrite lacks_append, HP. reflexivity.
  - apply route_ext; [congruence|]. rewrite HQ2, HQ3, Hq2, Hq3. reflexivity.
Qed.

End Locations.

(** C5 as stated fails under [never]: the location the normalizer
    produces for [/about//] is [/about/], which it redirects again. *)
Lemma never_redirects_its_own_location :
  route rootApp siteFs siteClient never (Some "GET") "/about//"
  = Redirect "/about/"
  /\ route rootApp siteFs siteClient never (Some "GET") "/about/"
     = Redirect "/about".
Proof. split; vm_compute; reflexivity. Qed.

(** The theorem on the small deployment: [/logo] under [always] and
    [/about/] under [never]. *)
Lemma renormalizing_does_not_redirect_witness :
  (exists p, route rootApp siteFs siteClient always (Some "GET") "/logo/?x=1"
             = Serve p)
  /\ (exists p, route rootApp siteFs siteClient never (Some "GET") "/about?x=1"
                = Serve p).
Proof.
  split.
  - refine (proj1 (proj2 (proj2 (proj2
      (renormalizing_does_not_redirect rootApp siteFs siteClient always
         (Some "GET") (Some "GET") "/logo?x=1")))) "/logo/?x=1" eq_refl).
  - refine (proj2 (proj2 (proj2 (proj2
      (renormalizing_does_not_redirect rootApp siteFs siteClient never
         (Some "GET") (Some "GET") "/about/?x=1")))) "/about?x=1"
      eq_refl eq_refl).
Defined.

(** The theorem at [/about/?a=1?b=2] and [/about/?] under [never]. *)
Lemma redirect_drops_empty_and_repeated_query_witness :
  route rootApp siteFs siteClient never (Some "GET") "/about/?"
  = Redirect "/about"
  /\ route rootApp siteFs siteClient never (Some "GET") "/about/?a=1?b=2"
     = Redirect "/about?a=1".
Proof.
  pose proof (redirect_drops_empty_and_repeated_query
                rootApp siteFs siteClient never (Some "GET")
                "/about/" "a=1" "b=2" eq_refl eq_refl) as (Hempty & _ & Hrest).
  split.
  - etransitivity; [exact Hempty|]. reflexivity.
  - etransitivity; [exact Hrest|]. reflexivity.
Defined.

(** ** The walk of [resolveClientDir] *)

Lemma walkUp_unfold (fuel : nat) (serverFolder cur : string) :
  walkUp fuel serverFolder cur
  = if JS.endsWith cur serverFolder then Some cur
    else match fuel with
         | O => None
         | S fuel' => walkUp fuel' serverFolder (Path.dirname cur)
         end.
Proof. destruct fuel; reflexivity. Qed.

Lemma ancestor_succ (k : nat) (start : string) :
  ancestor (S k) start = ancestor k (Path.dirname start).
Proof. apply Nat.iter_succ_r. Qed.

(** When some ancestor matches, the loop exits at the first one that
    does, as soon as the fuel reaches it. *)
Lemma walkUp_first_match (serverFolder : string) (k : nat) :
  forall start,
    JS.endsWith (ancestor k start) serverFolder = true ->
    exists k0,
      (k0 <= k)%nat
      /\ JS.endsWith (ancestor k0 start) serverFolder = true
      /\ (forall j, (j < k0)%nat ->
            JS.endsWith (ancestor j start) serverFolder = false)
      /\ (forall fuel, (k0 <= fuel)%nat ->
            walkUp fuel serverFolder start = Some (ancestor k0 start)).
Proof.
  induction k as [|k IH]; intros start Hk.
  - exists 0%nat. repeat split; [lia|exact Hk|lia|].
    intros fuel _. rewrite walkUp_unfold. simpl in Hk. rewrite Hk. reflexivity.
  - destruct (JS.endsWith start serverFolder) eqn:H0.
    + exists 0%nat. repeat split; [lia|exact H0|lia|].
      intros fuel _. rewrite walkUp_unfold, H0. reflexivity.
    + rewrite ancestor_succ in Hk.
      destruct (IH _ Hk) as (k0 & Hle & Hmatch & Hfirst & Hwalk).
      exists (S k0). rewrite ancestor_succ. repeat split; [lia|exact Hmatch| |].
      * intros [|j] Hj; [exact H0|].
        rewrite ancestor_succ. apply Hfirst. lia.
      * intros [|fuel] Hfuel; [lia|].
        rewrite walkUp_unfold, H0. apply Hwalk. lia.
Qed.

(** When no ancestor matches, the loop is still running after any number
    of iterations. *)
Lemma walkUp_no_match (serverFolder : string) (fuel : nat) :
  forall start,
    (forall k, JS.endsWith (ancestor k start) serverFolder = false) ->
    walkUp fuel serverFolder start = None.
Proof.
  induction fuel as [|fuel IH]; intros start Hnone;
    rewrite walkUp_unfold, (Hnone 0%nat : JS.endsWith start _ = false);
    [reflexivity|].
  apply IH. intros k. rewrite <- ancestor_succ. apply Hnone.
Qed.

(** C9, as the code has it.  The walk exits exactly when some ancestor
    of the entry module's location has a path that ends with the server
    folder's name, and then at the first such ancestor, from which the
    client directory is resolved; when no ancestor does, the loop never
    exits: no error is raised and no directory is returned. *)
Theorem resolver_exits_iff_an_ancestor_matches
    (relativeOfURLs fileURLToPathAt : string -> string -> option string)
    (options : Options) (import_meta_url rel : string) :
  let serverFolder := Path.basename (server options) in
  let start := Path.dirname import_meta_url in
  relativeOfURLs (server options) (client options) = Some rel ->
  ((exists k, JS.endsWith (ancestor k start) serverFolder = true) ->
   exists k0,
     JS.endsWith (ancestor k0 start) serverFolder = true
     /\ (forall j, (j < k0)%nat ->
           JS.endsWith (ancestor j start) serverFolder = false)
     /\ (forall fuel, (k0 <= fuel)%nat ->
           resolveClientDir relativeOfURLs fileURLToPathAt fuel options
             import_meta_url
           = match fileURLToPathAt (appendForwardSlash rel)
                     (ancestor k0 start +:+ "/entry.mjs") with
             | Some clientDir => Resolved clientDir
             | None => Threw
             end))
  /\ ((forall k, JS.endsWith (ancestor k start) serverFolder = false) ->
      forall fuel,
        resolveClientDir relativeOfURLs fileURLToPathAt fuel options
          import_meta_url = StillWalking).
Proof.
  intros serverFolder start Hrel. split.
  - intros [k Hk].
    destruct (walkUp_first_match serverFolder k start Hk)
      as (k0 & _ & Hmatch & Hfirst & Hwalk).
    exists k0. repeat split; [exact Hmatch|exact Hfirst|].
    intros fuel Hfuel. unfold resolveClientDir. rewrite Hrel.
    fold serverFolder start. rewrite (Hwalk fuel Hfuel). reflexivity.
  - intros Hnone fuel. unfold resolveClientDir. rewrite Hrel.
    fold serverFolder start. rewrite (walkUp_no_match _ _ _ Hnone).
    reflexivity.
Qed.

(** The theorem on the small deployment, whose entry module lies two
    folders below [/srv/server]. *)
Lemma resolver_exits_iff_an_ancestor_matches_witness :
  exists k0,
    JS.endsWith
      (ancestor k0 (Path.dirname "file:///srv/server/chunks/pages/entry.mjs"))
      (Path.basename (server (siteOptions ignore))) = true
    /\ (forall j, (j < k0)%nat ->
          JS.endsWith
            (ancestor j (Path.dirname "file:///srv/server/chunks/pages/entry.mjs"))
            (Path.basename (server (siteOptions ignore))) = false)
    /\ (forall fuel, (k0 <= fuel)%nat ->
          resolveClientDir siteRelativeOfURLs siteFileURLToPathAt fuel
            (siteOptions ignore) "file:///srv/server/chunks/pages/entry.mjs"
          = match siteFileURLToPathAt (appendForwardSlash "../client")
                    (ancestor k0
                       (Path.dirname "file:///srv/server/chunks/pages/entry.mjs")
                     +:+ "/entry.mjs") with
            | Some clientDir => Resolved clientDir
            | None => Threw
            end).
Proof.
  refine (proj1 (resolver_exits_iff_an_ancestor_matches
                   siteRelativeOfURLs siteFileURLToPathAt (siteOptions ignore)
                   "file:///srv/server/chunks/pages/entry.mjs" "../client"
                   eq_refl) _).
  exists 2%nat. reflexivity.
Defined.

Lemma walkUp_dot_server (fuel : nat) : walkUp fuel "server" "." = None.
Proof. induction fuel as [|fuel IH]; [reflexivity|exact IH]. Qed.

(** C9 as stated fails: from an entry module at [file:///app/entry.mjs]
    no ancestor ends with [server], and the loop runs forever instead of
    failing; and the loop stops at [file:///srv/myserver], a folder whose
    name is not [server] but ends with it. *)
Lemma resolver_walks_forever_without_match :
  walks_forever "server" (Path.dirname "file:///app/entry.mjs")
  /\ (forall fuel,
        resolveClientDir siteRelativeOfURLs siteFileURLToPathAt fuel
          (siteOptions ignore) "file:///app/entry.mjs" = StillWalking)
  /\ walkUp 1 "server" (Path.dirname "file:///srv/myserver/chunks/entry.mjs")
     = Some "file:///srv/myserver".
Proof.
  assert (H : walks_forever "server" (Path.dirname "file:///app/entry.mjs")).
  { intros [|[|fuel]]; [reflexivity..|]. apply (walkUp_dot_server fuel). }
  split; [exact H|split; [|reflexivity]].
  intros fuel. unfold resolveClientDir.
  change (siteRelativeOfURLs _ _) with (Some "../client").
  change (Path.basename _) with "server". rewrite (H fuel). reflexivity.
Qed.

(** * Further properties of the module *)

(** ** The action pattern *)

Lemma lang_chr (c : ascii) (m : string) :
  RegExp.lang (RegExp.Chr c) m <-> m = String c "".
Proof.
  unfold RegExp.Chr. split.
  - intros H. inversion H as [|p c' Hc| | | | |]; subst.
    apply Ascii.eqb_eq in Hc as ->. reflexivity.
  - intros ->. constructor. apply Ascii.eqb_refl.
Qed.

Lemma lang_lit (t : string) : forall m, RegExp.lang (RegExp.Lit t) m <-> m = t.
Proof.
  induction t as [|c t IH]; intros m; simpl.
  - split; [intros H; inversion H; reflexivity|intros ->; constructor].
  - split.
    + intros H. inversion H as [| |r1 r2 s1 s2 H1 H2| | | |]; subst.
      apply lang_chr in H1 as ->. apply IH in H2 as ->. reflexivity.
    + intros ->. change (String c t) with (String c "" +:+ t).
      constructor; [apply lang_chr|apply IH]; reflexivity.
Qed.

Lemma lang_opt (r : RegExp.pattern) (m : string) :
  RegExp.lang (RegExp.Opt r) m <-> m = "" \/ RegExp.lang r m.
Proof.
  unfold RegExp.Opt. split.
  - intros H. inversion H as [| | |r1 r2 s0 H1|r1 r2 s0 H1| |]; subst.
    + right. exact H1.
    + left. inversion H1. reflexivity.
  - intros [->|H]; [apply RegExp.lang_alt_r; constructor
                   |apply RegExp.lang_alt_l, H].
Qed.

Lemma isActionRegex_test_iff (s : string) :
  RegExp.test isActionRegex s = true
  <-> exists c rest,
        RegExp.isLineTerminator c = false
        /\ (s = "_actions/" +:+ String c rest
            \/ s = "/_actions/" +:+ String c rest).
Proof.
  rewrite test_lang. simpl. split.
  - intros (a & m & b & -> & H & Ha & _). rewrite (Ha eq_refl).
    inversion H as [| |r1 r2 o m1 Ho H1| | | |]; subst.
    inversion H1 as [| |r1 r2 l m2 Hl H2| | | |]; subst.
    apply (lang_lit "_actions/") in Hl as ->.
    apply lang_plus_class in H2 as [Hne Hall].
    destruct m2 as [|c m2]; [contradiction|].
    simpl in Hall. apply andb_true_iff in Hall as [Hc _].
    apply negb_true_iff in Hc.
    exists c, (m2 +:+ b). split; [exact Hc|].
    apply lang_opt in Ho as [->|Ho].
    + left. rewrite !append_assoc. reflexivity.
    + right. apply lang_chr in Ho as ->. rewrite !append_assoc. reflexivity.
  - intros (c & rest & Hc & Hs).
    assert (Hplus : RegExp.lang (RegExp.Plus RegExp.Dot) (String c "")).
    { apply lang_plus_class. split; [discriminate|]. simpl.
      rewrite Hc. reflexivity. }
    assert (Hbody : RegExp.lang
                      (RegExp.Seq (RegExp.Lit "_actions/") (RegExp.Plus RegExp.Dot))
                      ("_actions/" +:+ String c "")).
    { constructor; [apply lang_lit; reflexivity|exact Hplus]. }
    destruct Hs as [->| ->].
    + exists "", ("" +:+ "_actions/" +:+ String c ""), rest.
      repeat split; [|discriminate].
      constructor; [apply lang_opt; left; reflexivity|exact Hbody].
    + exists "", ("/" +:+ "_actions/" +:+ String c ""), rest.
      repeat split; [|discriminate].
      constructor; [apply lang_opt; right; apply lang_chr; reflexivity
                   |exact Hbody].
Qed.

(** X4: [isActionRegex.test(s)] holds exactly when [s] is [_actions/] or
    [/_actions/] followed by at least one code unit, the first of which
    is no line terminator. *)
Theorem isActionRegex_spec (s : string) :
  RegExp.test isActionRegex s = true
  <-> exists c rest,
        RegExp.isLineTerminator c = false
        /\ (s = "_actions/" +:+ String c rest
            \/ s = "/_actions/" +:+ String c rest).
Proof. exact (isActionRegex_test_iff s). Qed.

(** ** Decisions of the handler *)

Section Decisions.

Context (app : NodeApp) (fs : Fs) (client : string).

(** X5: under [always], a [POST] whose base-stripped path is [_actions/]
    or [/_actions/] followed by a code unit that is no line terminator is
    served as it is, trailing slash or not; with any other method the
    same path is redirected when it has no trailing slash and is no
    subresource. *)
Theorem action_post_is_not_redirected
    (P : string) (query : option string) (c : ascii) (rest : string) :
  RegExp.isLineTerminator c = false ->
  removeBase app P = "_actions/" +:+ String c rest
  \/ removeBase app P = "/_actions/" +:+ String c rest ->
  JS.lacks "?" P = true ->
  route app fs client always (Some "POST") (withQuery P query) = Serve P
  /\ (forall m,
        m <> Some "POST" ->
        JS.endsWith P "/" = false ->
        RegExp.test isSubresourceRegex P = false ->
        route app fs client always m (withQuery P query)
        = Redirect ((P +:+ "/") +:+ queryPart (urlQuery_of (withQuery P query)))).
Proof.
  intros Hc Hshape HP.
  destruct (urlPath_of_withQuery P query HP) as [Hpath _].
  assert (Htest : RegExp.test isActionRegex (removeBase app P) = true).
  { apply isActionRegex_test_iff. exists c, rest. auto. }
  split.
  - rewrite route_always, Hpath. unfold isActionRequest. rewrite Htest.
    rewrite bool_decide_eq_true_2 by reflexivity. simpl.
    rewrite !andb_false_r. reflexivity.
  - intros m Hm Hslash Hsub. rewrite route_always, Hpath, Hslash, Hsub.
    unfold isActionRequest. rewrite (bool_decide_eq_false_2 _ Hm).
    rewrite andb_false_r. reflexivity.
Qed.

End Decisions.

(** The theorem at [POST /_actions/like] on the small deployment. *)
Lemma action_post_is_not_redirected_witness :
  route rootApp siteFs siteClient always (Some "POST") "/_actions/like?x=1"
  = Serve "/_actions/like".
Proof.
  refine (proj1 (action_post_is_not_redirected rootApp siteFs siteClient
                   "/_actions/like" (Some "x=1") "l" "ike" eq_refl _ eq_refl)).
  left. reflexivity.
Defined.

Lemma split_parts_snd_lacks (sep : ascii) (s : string) :
  Forall (fun q => JS.lacks sep q = true) (JS.split_parts sep s).2.
Proof.
  induction s as [|c s IH]; cbn [JS.split_parts]; [constructor|].
  pose proof (split_parts_fst_lacks sep s) as Hh.
  destruct (JS.split_parts sep s) as [h t]. simpl in IH, Hh.
  destruct (Ascii.eqb c sep); simpl; [constructor|]; assumption.
Qed.

Lemma urlQuery_of_lacks (u q : string) :
  urlQuery_of u = Some q -> JS.lacks "?" q = true.
Proof.
  unfold urlQuery_of. pose proof (split_parts_snd_lacks "?" u) as H.
  destruct (JS.split_parts "?" u).2 as [|q' t]; [discriminate|].
  intros [= <-]. inversion H; assumption.
Qed.

Section Outcomes.

Context (app : NodeApp) (fs : Fs) (client : string).

(** A redirect moves the path by one trailing slash and keeps the query
    part. *)
Lemma redirect_shape (policy : TrailingSlash) (method : option string)
    (u L : string) :
  route app fs client policy method u = Redirect L ->
  exists X,
    X <> "" /\ JS.lacks "?" X = true
    /\ L = X +:+ queryPart (urlQuery_of u)
    /\ ((policy = never /\ urlPath_of u = X +:+ "/"
         /\ probe_isDirectory app fs client (urlPath_of u) = true)
        \/ (policy = always /\ X = urlPath_of u +:+ "/"
            /\ JS.endsWith (urlPath_of u) "/" = false)).
Proof.
  pose proof (urlPath_of_lacks u) as Hlacks.
  destruct policy.
  - unfold_route.
    destruct (probe_isDirectory app fs client (urlPath_of u)) eqn:Hdir,
      (String.eqb_spec (urlPath_of u) "/") as [Hroot|Hroot],
      (JS.endsWith (urlPath_of u) "/") eqn:Hslash; simpl; try discriminate.
    intros [= <-]. apply endsWith_inv in Hslash as [P' HP'].
    exists P'. rewrite HP', slice_0_m1_snoc. rewrite HP' in Hlacks, Hroot.
    rewrite lacks_append in Hlacks. apply andb_true_iff in Hlacks as [Hlacks _].
    repeat split; [|exact Hlacks|left; repeat split].
    intros ->. apply Hroot. reflexivity.
  - intros H. destruct (route_ignore_serves app fs client method u) as [p Hp].
    congruence.
  - rewrite route_always.
    destruct (JS.endsWith (urlPath_of u) "/") eqn:Hslash; simpl;
      [discriminate|].
    destruct (_ && _); [|discriminate]. intros [= <-].
    exists (urlPath_of u +:+ "/"). repeat split.
    + destruct (urlPath_of u); discriminate.
    + rewrite lacks_append, Hlacks. reflexivity.
    + right. repeat split.
Qed.

(** X6: a redirect changes the path by exactly one trailing slash,
    removed from a directory path under [never] and added under
    [always], and never under [ignore]; the new path is not empty; and
    the location is that path alone when the URL has no query string or
    an empty first piece after [?], and otherwise that path, one [?] and
    the first piece, which holds no [?]. *)
Theorem redirect_location_shape (policy : TrailingSlash)
    (method : option string) (u L : string) :
  route app fs client policy method u = Redirect L ->
  exists X,
    X <> "" /\ JS.lacks "?" X = true
    /\ ((policy = never /\ urlPath_of u = X +:+ "/"
         /\ probe_isDirectory app fs client (urlPath_of u) = true)
        \/ (policy = always /\ X = urlPath_of u +:+ "/"
            /\ JS.endsWith (urlPath_of u) "/" = false))
    /\ ((JS.truthy (urlQuery_of u) = false /\ L = X)
        \/ (exists q, urlQuery_of u = Some q /\ q <> ""
                      /\ JS.lacks "?" q = true /\ L = X +:+ "?" +:+ q)).
Proof.
  intros H. destruct (redirect_shape _ _ _ _ H) as (X & Hne & HX & -> & Hpol).
  exists X. repeat split; [exact Hne|exact HX|exact Hpol|].
  rewrite queryPart_cases.
  destruct (urlQuery_of u) as [[|c q]|] eqn:HQ.
  - left. rewrite append_nil_r. split; reflexivity.
  - right. exists (String c q). repeat split; [discriminate|].
    apply (urlQuery_of_lacks u), HQ.
  - left. rewrite append_nil_r. split; reflexivity.
Qed.

(** X7: what is served is the request path, or that path followed by
    [/index.html] when, under [never] or [ignore], it names a directory
    and has no trailing slash; the query string never reaches the file
    server. *)
Theorem serve_target_shape (policy : TrailingSlash)
    (method : option string) (u p : string) :
  route app fs client policy method u = Serve p ->
  JS.lacks "?" p = true
  /\ (p = urlPath_of u
      \/ (policy <> always
          /\ probe_isDirectory app fs client (urlPath_of u) = true
          /\ JS.endsWith (urlPath_of u) "/" = false
          /\ p = urlPath_of u +:+ "/index.html")).
Proof.
  pose proof (urlPath_of_lacks u) as Hlacks.
  assert (Hindex : JS.lacks "?" (urlPath_of u +:+ "/index.html") = true)
    by (rewrite lacks_append, Hlacks; reflexivity).
  unfold_route.
  destruct (probe_isDirectory app fs client (urlPath_of u)),
    (JS.endsWith (urlPath_of u) "/"), policy; simpl;
    try (destruct (String.eqb (urlPath_of u) "/"); simpl);
    try (destruct (_ && _); simpl);
    try discriminate; intros [= <-];
    (split; [assumption|]);
    try (left; reflexivity);
    right; repeat split; discriminate.
Qed.

(** X8: the root path is served as it is under every policy, whatever
    the method, the query string and the file system. *)
Theorem root_is_never_redirected (options : Options) (policy : TrailingSlash)
    (m : option string) (query : option string) (w : World) :
  route app fs client policy m (withQuery "/" query) = Serve "/"
  /\ handler app fs options client
       {| url := Some (withQuery "/" query); method := m |} w
     = (w, Some (send client (prependForwardSlash (removeBase app "/")))).
Proof.
  destruct (urlPath_of_withQuery "/" query eq_refl) as [Hpath _].
  assert (Hroute : forall pol,
            route app fs client pol m (withQuery "/" query) = Serve "/").
  { intros pol. unfold_route. rewrite Hpath.
    destruct pol, (probe_isDirectory app fs client "/"); reflexivity. }
  split; [apply Hroute|].
  apply (handler_serve _ _ _ _ _ _ (withQuery "/" query));
    [reflexivity|destruct query; discriminate|apply Hroute].
Qed.

(** X9: when [lstatSync] throws on the file path, or reports something
    that is no directory, [never] and [ignore] hand the request path to
    the file server unchanged, trailing slash included. *)
Theorem missing_path_is_served_unchanged (policy : TrailingSlash)
    (method : option string) (u : string) :
  lstatSync fs (Path.join client (removeBase app (urlPath_of u))) = None
  \/ lstatSync fs (Path.join client (removeBase app (urlPath_of u)))
     = Some {| isDirectory := false |} ->
  policy <> always ->
  route app fs client policy method u = Serve (urlPath_of u).
Proof.
  intros Hstat Hpol. unfold_route.
  assert (Hdir : probe_isDirectory app fs client (urlPath_of u) = false).
  { unfold probe_isDirectory. destruct Hstat as [-> | ->]; reflexivity. }
  rewrite Hdir. destruct policy; [reflexivity..|contradiction].
Qed.

End Outcomes.

(** The theorem at [GET /about/?x=1] under [never]. *)
Lemma redirect_location_shape_witness :
  exists X,
    X <> "" /\ JS.lacks "?" X = true
    /\ ((never = never /\ urlPath_of "/about/?x=1" = X +:+ "/"
         /\ probe_isDirectory rootApp siteFs siteClient
              (urlPath_of "/about/?x=1") = true)
        \/ (never = always /\ X = urlPath_of "/about/?x=1" +:+ "/"
            /\ JS.endsWith (urlPath_of "/about/?x=1") "/" = false))
    /\ ((JS.truthy (urlQuery_of "/about/?x=1") = false /\ "/about?x=1" = X)
        \/ (exists q, urlQuery_of "/about/?x=1" = Some q /\ q <> ""
                      /\ JS.lacks "?" q = true
                      /\ "/about?x=1" = X +:+ "?" +:+ q)).
Proof.
  exact (redirect_location_shape rootApp siteFs siteClient never (Some "GET")
           "/about/?x=1" "/about?x=1" eq_refl).
Defined.

(** The theorem at [GET /about?x=1] under [ignore]. *)
Lemma serve_target_shape_witness :
  JS.lacks "?" "/about/index.html" = true
  /\ ("/about/index.html" = urlPath_of "/about?x=1"
      \/ (ignore <> always
          /\ probe_isDirectory rootApp siteFs siteClient
               (urlPath_of "/about?x=1") = true
          /\ JS.endsWith (urlPath_of "/about?x=1") "/" = false
          /\ "/about/index.html" = urlPath_of "/about?x=1" +:+ "/index.html")).
Proof.
  exact (serve_target_shape rootApp siteFs siteClient ignore (Some "GET")
           "/about?x=1" "/about/index.html" eq_refl).
Defined.

(** The theorem at [GET /missing/] under [never]. *)
Lemma missing_path_is_served_unchanged_witness :
  route rootApp siteFs siteClient never (Some "GET") "/missing/?x=1"
  = Serve "/missing/".
Proof.
  refine (missing_path_is_served_unchanged rootApp siteFs siteClient never
            (Some "GET") "/missing/?x=1" _ _).
  - left. reflexivity.
  - discriminate.
Defined.

(** ** Redirects followed *)

Lemma length_append (a b : string) :
  String.length (a +:+ b) = (String.length a + String.length b)%nat.
Proof.
  induction a as [|c a IH]; [reflexivity|].
  rewrite append_cons. simpl. rewrite IH. reflexivity.
Qed.

Section Chains.

Context (app : NodeApp) (fs : Fs) (client : string).

(** The path and the query part of a redirect location. *)
Lemma location_parts (X : string) (Q : option string) :
  JS.lacks "?" X = true ->
  (forall q, Q = Some q -> JS.lacks "?" q = true) ->
  urlPath_of (X +:+ queryPart Q) = X
  /\ queryPart (urlQuery_of (X +:+ queryPart Q)) = queryPart Q.
Proof.
  intros HX HQ. rewrite !queryPart_cases. destruct Q as [[|c q]|].
  - rewrite append_nil_r. destruct (urlPath_of_plain X HX) as [-> ->].
    split; reflexivity.
  - destruct (urlPath_of_query X (String c q) HX) as [-> ->].
    destruct (urlPath_of_plain (String c q) (HQ _ eq_refl)) as [-> _].
    split; reflexivity.
  - rewrite append_nil_r. destruct (urlPath_of_plain X HX) as [-> ->].
    split; reflexivity.
Qed.

(** X10: the two redirecting policies undo each other.  The location of
    a redirect under [always] that names a directory is redirected under
    [never] to the requested path with its query part; and the location
    of a redirect under [never] is redirected under [always] to the
    requested path with its query part, unless that location ends in a
    slash, looks like a subresource or is an action [POST]. *)
Theorem never_and_always_undo_each_other
    (method method' : option string) (u L : string) :
  (route app fs client always method u = Redirect L ->
   urlPath_of u <> "" ->
   probe_isDirectory app fs client (urlPath_of u +:+ "/") = true ->
   route app fs client never method' L
   = Redirect (urlPath_of u +:+ queryPart (urlQuery_of u)))
  /\ (route app fs client never method u = Redirect L ->
      JS.endsWith (urlPath_of L) "/" = false ->
      RegExp.test isSubresourceRegex (urlPath_of L) = false ->
      isActionRequest app method' (urlPath_of L) = false ->
      route app fs client always method' L
      = Redirect (urlPath_of u +:+ queryPart (urlQuery_of u))).
Proof.
  split.
  - intros H Hne Hdir.
    destruct (redirect_shape _ _ _ _ _ _ _ H)
      as (X & _ & HX & -> & [(Hpol & _)|(_ & -> & _)]); [discriminate|].
    destruct (location_parts _ (urlQuery_of u) HX (urlQuery_of_lacks u))
      as [HP HQ].
    unfold_route. rewrite HP, HQ, Hdir, endsWith_append.
    rewrite (append_slash_not_root _ Hne). simpl.
    rewrite slice_0_m1_snoc. reflexivity.
  - intros H Hslash Hsub Haction.
    destruct (redirect_shape _ _ _ _ _ _ _ H)
      as (X & _ & HX & -> & [(_ & HP' & _)|(Hpol & _)]); [|discriminate].
    destruct (location_parts _ (urlQuery_of u) HX (urlQuery_of_lacks u))
      as [HP HQ].
    rewrite HP in Hslash, Hsub, Haction.
    rewrite route_always, HP, HQ, Hslash, Hsub, Haction, HP'. reflexivity.
Qed.

(** Under [never] a redirect shortens the path. *)
Lemma never_redirect_shortens (method : option string) (u L : string) :
  route app fs client never method u = Redirect L ->
  (String.length (urlPath_of L) < String.length (urlPath_of u))%nat.
Proof.
  intros H.
  destruct (redirect_shape _ _ _ _ _ _ _ H)
    as (X & _ & HX & -> & [(_ & HP' & _)|(Hpol & _)]); [|discriminate].
  destruct (location_parts _ (urlQuery_of u) HX (urlQuery_of_lacks u))
    as [-> _].
  rewrite HP', length_append. simpl. lia.
Qed.

Lemma never_chain_stops (n : nat) :
  forall (m : nat -> option string) (f : nat -> string),
    (String.length (urlPath_of (f 0%nat)) <= n)%nat ->
    exists i, (i <= n)%nat
              /\ route app fs client never (m i) (f i) <> Redirect (f (S i)).
Proof.
  induction n as [|n IH]; intros m f Hlen.
  - exists 0%nat. split; [lia|]. intros H.
    apply never_redirect_shortens in H. lia.
  - destruct (decide (route app fs client never (m 0%nat) (f 0%nat)
                      = Redirect (f 1%nat))) as [H|H].
    + apply never_redirect_shortens in H.
      destruct (IH (fun i => m (S i)) (fun i => f (S i))) as (i & Hi & Hstop);
        [lia|].
      exists (S i). split; [lia|exact Hstop].
    + exists 0%nat. split; [lia|exact H].
Qed.

(** X11: no chain of redirects goes on for ever.  In any sequence of
    URLs requested one after the other under one policy, with any
    methods, one of the first [2 + n] is not redirected to its
    successor, [n] being the length of the path of the first: [ignore]
    never redirects, [always] never redirects its own location, and
    under [never] every redirect shortens the path. *)
Theorem redirect_chains_stop (policy : TrailingSlash)
    (m : nat -> option string) (f : nat -> string) :
  exists i,
    (i <= S (String.length (urlPath_of (f 0%nat))))%nat
    /\ route app fs client policy (m i) (f i) <> Redirect (f (S i)).
Proof.
  destruct policy.
  - destruct (never_chain_stops _ m f (le_n _)) as (i & Hi & Hstop).
    exists i. split; [lia|exact Hstop].
  - exists 0%nat. split; [lia|].
    destruct (route_ignore_serves app fs client (m 0%nat) (f 0%nat)) as [p ->].
    discriminate.
  - destruct (decide (route app fs client always (m 0%nat) (f 0%nat)
                      = Redirect (f 1%nat))) as [H|H].
    + exists 1%nat. split; [lia|].
      destruct (redirect_shape _ _ _ _ _ _ _ H)
        as (X & _ & HX & HL & [(Hpol & _)|(_ & -> & _)]); [discriminate|].
      destruct (location_parts _ (urlQuery_of (f 0%nat)) HX
                  (urlQuery_of_lacks (f 0%nat))) as [HP _].
      rewrite HL, route_always, HP, endsWith_append. discriminate.
    + exists 0%nat. split; [lia|exact H].
Qed.

End Chains.

(** The theorem on the small deployment: [/about] under [always], then
    its location under [never]. *)
Lemma never_and_always_undo_each_other_witness :
  route rootApp siteFs siteClient never (Some "GET") "/about/?x=1"
  = Redirect "/about?x=1".
Proof.
  refine (proj1 (never_and_always_undo_each_other rootApp siteFs siteClient
                   (Some "GET") (Some "GET") "/about?x=1" "/about/?x=1")
            eq_refl _ eq_refl).
  discriminate.
Defined.

(** ** Outcomes of a request *)

(** X12: every request ends in exactly one of three ways before any
    streaming.  Without a URL, [ssr] is called once and nothing else
    happens; or a 301 with a non-empty [Location] is written and ended,
    with no file server and no [ssr], which [ignore] never does; or the
    world is left as it was and a stream is piped whose pathname starts
    with a slash. *)
Theorem handler_outcomes
    (app : NodeApp) (fs : Fs) (options : Options) (client : string)
    (req : IncomingMessage) (w : World) :
  (JS.truthy (url req) = false
   /\ handler app fs options client req w = (ssr w, None))
  \/ (JS.truthy (url req) = true
      /\ default ignore (trailingSlash options) <> ignore
      /\ exists L, L <> ""
                   /\ handler app fs options client req w
                      = (redirect301 L w, None))
  \/ (JS.truthy (url req) = true
      /\ exists p, JS.startsWith p "/" = true
                   /\ handler app fs options client req w
                      = (w, Some (send client p))).
Proof.
  unfold handler. destruct (JS.truthy (url req)); [right|left; auto].
  destruct (route _ _ _ _ _ _) as [L|p] eqn:Hroute; [left|right].
  - repeat split.
    + intros Hpol. rewrite Hpol in Hroute.
      destruct (route_ignore_serves app fs client (method req)
                  (default "" (url req))) as [p Hp].
      congruence.
    + exists L. split; [|reflexivity].
      destruct (redirect_shape _ _ _ _ _ _ _ Hroute) as (X & HX & _ & -> & _).
      destruct X; [contradiction|discriminate].
  - split; [reflexivity|]. eexists. split; [|reflexivity].
    apply prependForwardSlash_startsWith.
Qed.

(** ** The slash helpers *)

(** X13: [prependForwardSlash] and [appendForwardSlash] add at most one
    slash, guarantee it is there, and change nothing when applied twice;
    [slice(0, -1)] takes away the slash [appendForwardSlash] added. *)
Theorem forward_slash_helpers (pth : string) :
  JS.startsWith (prependForwardSlash pth) "/" = true
  /\ prependForwardSlash (prependForwardSlash pth) = prependForwardSlash pth
  /\ (prependForwardSlash pth = pth \/ prependForwardSlash pth = "/" +:+ pth)
  /\ JS.endsWith (appendForwardSlash pth) "/" = true
  /\ appendForwardSlash (appendForwardSlash pth) = appendForwardSlash pth
  /\ (appendForwardSlash pth = pth \/ appendForwardSlash pth = pth +:+ "/")
  /\ (JS.endsWith pth "/" = false ->
      JS.slice_0_m1 (appendForwardSlash pth) = pth).
Proof.
  assert (Hpre : JS.startsWith (prependForwardSlash pth) "/" = true)
    by apply prependForwardSlash_startsWith.
  assert (Happ : JS.endsWith (appendForwardSlash pth) "/" = true).
  { unfold appendForwardSlash. destruct (JS.endsWith pth "/") eqn:E;
      [exact E|apply endsWith_append]. }
  repeat split.
  - exact Hpre.
  - unfold prependForwardSlash at 1. rewrite Hpre. reflexivity.
  - unfold prependForwardSlash. destruct (JS.startsWith pth "/"); auto.
  - exact Happ.
  - unfold appendForwardSlash at 1. rewrite Happ. reflexivity.
  - unfold appendForwardSlash. destruct (JS.endsWith pth "/"); auto.
  - intros H. unfold appendForwardSlash. rewrite H. apply slice_0_m1_snoc.
Qed.

(** ** The listeners, over whole runs *)

Lemma errorsOf_nil (evs : list StreamEvent) :
  errorsOf evs = [] -> forall e, EvError e ∉ evs.
Proof.
  induction evs as [|ev evs IH]; intros H e He;
    [revert He; apply not_elem_of_nil|].
  destruct ev; try discriminate;
    (apply elem_of_cons in He as [He|He]; [discriminate|exact (IH H e He)]).
Qed.

Section Runs.

Context (options : Options).

Lemma on_headers_keeps (s : SendStream) (w : World) :
  ssrCalls (on_headers options s w) = ssrCalls w
  /\ stderr (on_headers options s w) = stderr w
  /\ statusCode (res (on_headers options s w)) = statusCode (res w)
  /\ body (res (on_headers options s w)) = body (res w)
  /\ writableEnded (res (on_headers options s w)) = writableEnded (res w)
  /\ uncaught (on_headers options s w) = uncaught w.
Proof. unfold on_headers. destruct (JS.startsWith _ _); repeat split. Qed.

(** Before any file is found: every error goes to [ssr]. *)
Lemma emit_all_before_file (evs : list StreamEvent) :
  forall (s : SendStream) (w : World),
    forwardError s = false ->
    EvFile ∉ evs ->
    let r := emit_all options evs (s, w) in
    forwardError r.1 = false
    /\ headersSent r.1 = headersSent s || bool_decide (EvWrite ∈ evs)
    /\ ssrCalls r.2 = (ssrCalls w + length (errorsOf evs))%nat
    /\ stderr r.2 = stderr w
    /\ statusCode (res r.2) = statusCode (res w)
    /\ body (res r.2) = body (res w)
    /\ writableEnded (res r.2) = writableEnded (res w)
    /\ uncaught r.2 = uncaught w.
Proof.
  induction evs as [|ev evs IH]; intros s w Hs Hfile.
  - simpl. rewrite Nat.add_0_r, orb_false_r. repeat split. exact Hs.
  - assert (Hfile' : EvFile ∉ evs) by (intros H; apply Hfile; right; exact H).
    rewrite emit_all_cons. destruct ev as [e| | |].
    + simpl emit. unfold on_error. rewrite Hs.
      destruct (IH s (ssr w) Hs Hfile')
        as (H1 & H2 & H3 & H4 & H5 & H6 & H7 & H8).
      cbv zeta. rewrite H1, H2, H3, H4, H5, H6, H7, H8.
      rewrite (elem_of_later EvWrite (EvError e)) by discriminate. simpl.
      repeat split. lia.
    + simpl emit.
      destruct (on_headers_keeps s w) as (A1 & A2 & A3 & A4 & A5 & A6).
      destruct (IH s (on_headers options s w) Hs Hfile')
        as (H1 & H2 & H3 & H4 & H5 & H6 & H7 & H8).
      cbv zeta. rewrite H1, H2, H3, H4, H5, H6, H7, H8.
      rewrite A1, A2, A3, A4, A5, A6.
      rewrite (elem_of_later EvWrite EvHeaders) by discriminate.
      repeat split.
    + exfalso. apply Hfile. left.
    + simpl emit.
      destruct (IH (sent s) w Hs Hfile')
        as (H1 & H2 & H3 & H4 & H5 & H6 & H7 & H8).
      cbv zeta. rewrite H1, H2, H3, H4, H5, H6, H7, H8.
      rewrite (bool_decide_eq_true_2 (EvWrite ∈ EvWrite :: evs)) by left.
      simpl. rewrite orb_true_r. repeat split.
Qed.

(** After a file was found: no error goes to [ssr], every one is
    logged. *)
Lemma emit_all_after_file (evs : list StreamEvent) :
  forall (s : SendStream) (w : World),
    forwardError s = true ->
    let r := emit_all options evs (s, w) in
    forwardError r.1 = true
    /\ ssrCalls r.2 = ssrCalls w
    /\ stderr r.2 = stderr w ++ errorsOf evs.
Proof.
  induction evs as [|ev evs IH]; intros s w Hs.
  - simpl. rewrite app_nil_r. repeat split. exact Hs.
  - rewrite emit_all_cons. destruct ev as [e| | |]; simpl emit.
    + unfold on_error, writeHead. rewrite Hs.
      destruct (headersSent s);
        match goal with
        | |- context [emit_all options evs (?s1, ?w1)] =>
            destruct (IH s1 w1 Hs) as (H1 & H2 & H3)
        end;
        cbv zeta; rewrite H1, H2, H3; simpl; rewrite <- app_assoc;
        repeat split.
    + destruct (on_headers_keeps s w) as (A1 & A2 & _).
      destruct (IH s (on_headers options s w) Hs) as (H1 & H2 & H3).
      cbv zeta. rewrite H1, H2, H3, A1, A2. repeat split.
    + destruct (IH (on_file s) w eq_refl) as (H1 & H2 & H3).
      cbv zeta. rewrite H1, H2, H3. repeat split.
    + destruct (IH (sent s) w Hs) as (H1 & H2 & H3).
      cbv zeta. rewrite H1, H2, H3. repeat split.
Qed.

(** After a file was found and the header block has gone out: every
    error throws, and the response is left as it is. *)
Lemma emit_all_after_sent (evs : list StreamEvent) :
  forall (s : SendStream) (w : World),
    forwardError s = true ->
    headersSent s = true ->
    let r := emit_all options evs (s, w) in
    statusCode (res r.2) = statusCode (res w)
    /\ body (res r.2) = body (res w)
    /\ writableEnded (res r.2) = writableEnded (res w)
    /\ uncaught r.2
       = uncaught w
         ++ replicate (length (errorsOf evs)) "ERR_HTTP_HEADERS_SENT".
Proof.
  induction evs as [|ev evs IH]; intros s w Hf Hh.
  - simpl. rewrite app_nil_r. repeat split.
  - rewrite emit_all_cons. destruct ev as [e| | |]; simpl emit.
    + unfold on_error, writeHead. rewrite Hf, Hh.
      match goal with
      | |- context [emit_all options evs (s, ?w1)] =>
          destruct (IH s w1 Hf Hh) as (H1 & H2 & H3 & H4)
      end.
      cbv zeta. rewrite H1, H2, H3, H4. simpl. rewrite <- app_assoc.
      repeat split.
    + destruct (on_headers_keeps s w) as (_ & _ & A3 & A4 & A5 & A6).
      destruct (IH s (on_headers options s w) Hf Hh) as (H1 & H2 & H3 & H4).
      cbv zeta. rewrite H1, H2, H3, H4, A3, A4, A5, A6. repeat split.
    + destruct (IH (on_file s) w eq_refl Hh) as (H1 & H2 & H3 & H4).
      cbv zeta. rewrite H1, H2, H3, H4. repeat split.
    + destruct (IH (sent s) w Hf eq_refl) as (H1 & H2 & H3 & H4).
      cbv zeta. rewrite H1, H2, H3, H4. repeat split.
Qed.

Lemma emit_all_stream (evs : list StreamEvent) (sw : SendStream * World) :
  root (emit_all options evs sw).1 = root sw.1
  /\ dotfiles (emit_all options evs sw).1 = dotfiles sw.1.
Proof.
  revert sw. induction evs as [|ev evs IH]; intros sw; [split; reflexivity|].
  rewrite emit_all_cons. destruct (IH (emit options sw ev)) as [-> ->].
  destruct ev; try (split; reflexivity).
  destruct (on_error_frame err sw.1 sw.2) as (_ & Hr & Hd & _).
  split; assumption.
Qed.

(** X14: over a whole run of events of a piped stream, [ssr] is called
    once for every error that comes before the first [file] event and
    never after it, and every error after the first [file] event is
    logged, in order.  The first error after the [file] event makes the
    response an ended 500 when no byte was written before it; when bytes
    were written, [res.writeHead(500)] throws and the response is left
    as it is.  Every later error throws as well.  Without an error after
    the [file] event the handler leaves the response alone and throws
    nothing. *)
Theorem listeners_account_for_every_error
    (client p : string) (w : World) :
  (forall evs,
     EvFile ∉ evs ->
     let final := (emit_all options evs (send client p, w)).2 in
     ssrCalls final = (ssrCalls w + length (errorsOf evs))%nat
     /\ stderr final = stderr w
     /\ statusCode (res final) = statusCode (res w)
     /\ body (res final) = body (res w)
     /\ writableEnded (res final) = writableEnded (res w)
     /\ uncaught final = uncaught w)
  /\ (forall pre post,
        EvFile ∉ pre ->
        let final :=
          (emit_all options (pre ++ EvFile :: post) (send client p, w)).2 in
        ssrCalls final = (ssrCalls w + length (errorsOf pre))%nat
        /\ stderr final = stderr w ++ errorsOf post
        /\ (errorsOf post = [] ->
            statusCode (res final) = statusCode (res w)
            /\ body (res final) = body (res w)
            /\ writableEnded (res final) = writableEnded (res w)
            /\ uncaught final = uncaught w)
        /\ (forall mid err rest,
              post = mid ++ EvError err :: rest ->
              errorsOf mid = [] ->
              (EvWrite ∉ pre ++ mid ->
               statusCode (res final) = 500
               /\ body (res final) = body (res w) +:+ "Internal server error"
               /\ writableEnded (res final) = true
               /\ uncaught final
                  = uncaught w
                    ++ replicate (length (errorsOf rest))
                         "ERR_HTTP_HEADERS_SENT")
              /\ (EvWrite ∈ pre ++ mid ->
                  statusCode (res final) = statusCode (res w)
                  /\ body (res final) = body (res w)
                  /\ writableEnded (res final) = writableEnded (res w)
                  /\ uncaught final
                     = uncaught w
                       ++ replicate (S (length (errorsOf rest)))
                            "ERR_HTTP_HEADERS_SENT"))).
Proof.
  split.
  - intros evs Hfile.
    destruct (emit_all_before_file evs (send client p) w eq_refl Hfile)
      as (_ & _ & H2 & H3 & H4 & H5 & H6 & H7).
    repeat split; assumption.
  - intros pre post Hfile final. subst final.
    rewrite emit_all_app, emit_all_cons.
    pose proof (emit_all_before_file pre (send client p) w eq_refl Hfile)
      as (_ & Hsent & H2 & H3 & H4 & H5 & H6 & H7).
    destruct (emit_all options pre (send client p, w)) as [s1 w1].
    simpl in Hsent, H2, H3, H4, H5, H6, H7. simpl emit.
    destruct (emit_all_after_file post (on_file s1) w1 eq_refl)
      as (_ & K2 & K3).
    cbv zeta in K2, K3.
    split; [rewrite K2; exact H2|].
    split; [rewrite K3, H3; reflexivity|].
    split.
    + intros Hquiet.
      destruct (emit_all_without_error options post (on_file s1) w1
                  (errorsOf_nil _ Hquiet))
        as (_ & _ & _ & Q1 & Q2 & Q3 & Q4 & _).
      cbv zeta in Q1, Q2, Q3, Q4. rewrite Q1, Q2, Q3, Q4.
      repeat split; assumption.
    + intros mid err rest -> Hquiet.
      rewrite emit_all_app, emit_all_cons.
      pose proof (emit_all_without_error options mid (on_file s1) w1
                    (errorsOf_nil _ Hquiet))
        as (Mf & Mh & _ & M1 & M2 & M3 & M4 & _).
      destruct (emit_all options mid (on_file s1, w1)) as [s3 w3].
      simpl in Mf, Mh, M1, M2, M3, M4. simpl emit.
      rewrite Hsent in Mh. unfold on_error, writeHead. rewrite Mf.
      split; intros Hwrite.
      * rewrite elem_of_app in Hwrite.
        rewrite Mh, !bool_decide_eq_false_2 by tauto. simpl.
        match goal with
        | |- context [emit_all options rest (?s4, ?w4)] =>
            destruct (emit_all_after_sent rest s4 w4 Mf eq_refl)
              as (R1 & R2 & R3 & R4)
        end.
        cbv zeta in R1, R2, R3, R4. rewrite R1, R2, R3, R4. simpl.
        rewrite M2, M4, H5, H7. repeat split.
      * assert (Hor : bool_decide (EvWrite ∈ pre) || bool_decide (EvWrite ∈ mid)
                      = true).
        { apply elem_of_app in Hwrite as [H|H];
            rewrite (bool_decide_eq_true_2 _ H); [reflexivity|apply orb_true_r]. }
        rewrite Hor in Mh. rewrite Mh.
        match goal with
        | |- context [emit_all options rest (s3, ?w4)] =>
            destruct (emit_all_after_sent rest s3 w4 Mf Mh)
              as (R1 & R2 & R3 & R4)
        end.
        cbv zeta in R1, R2, R3, R4. rewrite R1, R2, R3, R4. simpl.
        rewrite M1, M2, M3, M4, H4, H5, H6, H7, <- app_assoc.
        repeat split.
Qed.

(** X15: the listeners keep the stream and the headers apart from what
    they are for: the pathname, root and dotfile setting of the stream
    never change, a file once found stays found, and of the response
    headers only [Cache-Control] can change, to the immutable value. *)
Theorem listeners_frame (evs : list StreamEvent) (s : SendStream) (w : World) :
  let r := emit_all options evs (s, w) in
  pathname r.1 = pathname s
  /\ root r.1 = root s
  /\ dotfiles r.1 = dotfiles s
  /\ (forwardError s = true -> forwardError r.1 = true)
  /\ (forall name,
        name <> "Cache-Control" ->
        headers (res r.2) !! name = headers (res w) !! name)
  /\ (headers (res r.2) !! "Cache-Control"
      = headers (res w) !! "Cache-Control"
      \/ headers (res r.2) !! "Cache-Control" = Some immutableCacheControl).
Proof.
  cbv zeta. rewrite emit_all_headers.
  destruct (emit_all_stream evs (s, w)) as [Hroot Hdot].
  repeat split.
  - apply (emit_all_pathname options evs (s, w)).
  - exact Hroot.
  - exact Hdot.
  - intros Hs. apply (emit_all_after_file evs s w Hs).
  - intros name Hname. destruct (_ && _); [|reflexivity].
    apply lookup_insert_ne. congruence.
  - destruct (_ && _); [right; apply lookup_insert_eq|left; reflexivity].
Qed.

End Runs.

(** The theorem on the small deployment: two errors before any file,
    one error after a file, and one error after a file and bytes
    written. *)
Lemma listeners_account_for_every_error_witness :
  ssrCalls (emit_all (siteOptions ignore) [EvError "a"; EvError "b"]
              (send siteClient "/missing", freshWorld)).2 = 2%nat
  /\ stderr (emit_all (siteOptions ignore)
               ([EvError "a"] ++ EvFile :: [EvHeaders; EvError "b"])
               (send siteClient "/logo.PNG", freshWorld)).2 = ["b"]
  /\ uncaught (emit_all (siteOptions ignore)
                 ([] ++ EvFile :: [EvHeaders; EvWrite; EvError "b"])
                 (send siteClient "/logo.PNG", freshWorld)).2
     = ["ERR_HTTP_HEADERS_SENT"].
Proof.
  pose proof (listeners_account_for_every_error (siteOptions ignore)
                siteClient "/missing" freshWorld) as [Hbefore _].
  pose proof (listeners_account_for_every_error (siteOptions ignore)
                siteClient "/logo.PNG" freshWorld) as [_ Hafter].
  split; [|split].
  - refine (proj1 (Hbefore [EvError "a"; EvError "b"] _)).
    intros H. apply elem_of_cons in H as [H|H]; [discriminate|].
    apply elem_of_cons in H as [H|H]; [discriminate|].
    revert H. apply not_elem_of_nil.
  - refine (proj1 (proj2 (Hafter [EvError "a"] [EvHeaders; EvError "b"] _))).
    intros H. apply elem_of_cons in H as [H|H]; [discriminate|].
    revert H. apply not_elem_of_nil.
  - pose proof (Hafter [] [EvHeaders; EvWrite; EvError "b"]
                  (not_elem_of_nil _)) as (_ & _ & _ & Hfirst).
    destruct (Hfirst [EvHeaders; EvWrite] "b" [] eq_refl eq_refl)
      as [_ Hthrow].
    refine (proj2 (proj2 (proj2 (Hthrow _)))). right. left.
Defined.

(** ** What [resolveClientDir] returns *)

Lemma walkUp_sound (serverFolder : string) (fuel : nat) :
  forall start r,
    walkUp fuel serverFolder start = Some r ->
    exists k,
      (k <= fuel)%nat /\ r = ancestor k start
      /\ JS.endsWith r serverFolder = true
      /\ (forall j, (j < k)%nat ->
            JS.endsWith (ancestor j start) serverFolder = false).
Proof.
  induction fuel as [|fuel IH]; intros start r; rewrite walkUp_unfold;
    destruct (JS.endsWith start serverFolder) eqn:H0.
  - intros [= <-]. exists 0%nat. repeat split; [lia|exact H0|lia].
  - discriminate.
  - intros [= <-]. exists 0%nat. repeat split; [lia|exact H0|lia].
  - intros (k & Hk & -> & Hmatch & Hfirst)%IH.
    exists (S k). rewrite ancestor_succ. repeat split; [lia|exact Hmatch|].
    intros [|j] Hj; [exact H0|]. rewrite ancestor_succ. apply Hfirst. lia.
Qed.

(** X16: whatever the loop of [resolveClientDir] stops at is an ancestor
    of the starting folder whose path ends with the server folder's name,
    the nearest such ancestor, and more iterations give the same
    folder. *)
Theorem walk_stops_at_nearest_match
    (serverFolder start r : string) (fuel : nat) :
  walkUp fuel serverFolder start = Some r ->
  (exists k,
     (k <= fuel)%nat /\ r = ancestor k start
     /\ JS.endsWith r serverFolder = true
     /\ (forall j, (j < k)%nat ->
           JS.endsWith (ancestor j start) serverFolder = false))
  /\ (forall fuel', (fuel <= fuel')%nat ->
        walkUp fuel' serverFolder start = Some r).
Proof.
  intros H. pose proof (walkUp_sound _ _ _ _ H) as (k & Hk & Hr & Hmatch & Hfirst).
  split; [exists k; auto|].
  intros fuel' Hfuel'. rewrite Hr in Hmatch.
  destruct (walkUp_first_match serverFolder k start Hmatch)
    as (k0 & Hk0 & _ & _ & Hwalk).
  rewrite (Hwalk fuel') by lia. rewrite <- H. symmetry. apply Hwalk. lia.
Qed.

(** The theorem on the small deployment. *)
Lemma walk_stops_at_nearest_match_witness :
  exists k,
    (k <= 2)%nat
    /\ "file:///srv/server"
       = ancestor k (Path.dirname "file:///srv/server/chunks/pages/entry.mjs")
    /\ JS.endsWith "file:///srv/server" "server" = true
    /\ (forall j, (j < k)%nat ->
          JS.endsWith
            (ancestor j
               (Path.dirname "file:///srv/server/chunks/pages/entry.mjs"))
            "server" = false).
Proof.
  exact (proj1 (walk_stops_at_nearest_match "server"
                  (Path.dirname "file:///srv/server/chunks/pages/entry.mjs")
                  "file:///srv/server" 2 eq_refl)).
Defined.

(** X17: when [resolveClientDir] returns a directory, the two URLs were
    valid, the walk stopped within the fuel at an ancestor of the entry
    module's folder whose path ends with the name of the server folder,
    and the directory is the relative path, with a trailing slash,
    resolved against [entry.mjs] in that ancestor; and when the URLs are
    not valid it throws at once, before any walk. *)
Theorem resolved_client_dir_is_anchored
    (relativeOfURLs fileURLToPathAt : string -> string -> option string)
    (options : Options) (import_meta_url : string) (fuel : nat) :
  (forall clientDir,
     resolveClientDir relativeOfURLs fileURLToPathAt fuel options
       import_meta_url = Resolved clientDir ->
     exists rel k,
       relativeOfURLs (server options) (client options) = Some rel
       /\ (k <= fuel)%nat
       /\ JS.endsWith (ancestor k (Path.dirname import_meta_url))
            (Path.basename (server options)) = true
       /\ JS.endsWith (appendForwardSlash rel) "/" = true
       /\ fileURLToPathAt (appendForwardSlash rel)
            (ancestor k (Path.dirname import_meta_url) +:+ "/entry.mjs")
          = Some clientDir)
  /\ (relativeOfURLs (server options) (client options) = None ->
      resolveClientDir relativeOfURLs fileURLToPathAt fuel options
        import_meta_url = Threw).
Proof.
  unfold resolveClientDir. split.
  - intros clientDir.
    destruct (relativeOfURLs _ _) as [rel|]; [|discriminate].
    destruct (walkUp _ _ _) as [folder|] eqn:Hwalk; [|discriminate].
    destruct (fileURLToPathAt _ _) as [dir|] eqn:Hdir; [|discriminate].
    intros [= <-].
    apply walkUp_sound in Hwalk as (k & Hk & -> & Hmatch & _).
    exists rel, k. repeat split; [exact Hk|exact Hmatch| |exact Hdir].
    unfold appendForwardSlash. destruct (JS.endsWith rel "/") eqn:E;
      [exact E|apply endsWith_append].
  - intros ->. reflexivity.
Qed.

(** The theorem on the small deployment. *)
Lemma resolved_client_dir_is_anchored_witness :
  exists rel k,
    siteRelativeOfURLs (server (siteOptions ignore)) (client (siteOptions ignore))
    = Some rel
    /\ (k <= 2)%nat
    /\ JS.endsWith
         (ancestor k (Path.dirname "file:///srv/server/chunks/pages/entry.mjs"))
         (Path.basename (server (siteOptions ignore))) = true
    /\ JS.endsWith (appendForwardSlash rel) "/" = true
    /\ siteFileURLToPathAt (appendForwardSlash rel)
         (ancestor k (Path.dirname "file:///srv/server/chunks/pages/entry.mjs")
          +:+ "/entry.mjs")
       = Some "/srv/client/".
Proof.
  exact (proj1 (resolved_client_dir_is_anchored siteRelativeOfURLs
                  siteFileURLToPathAt (siteOptions ignore)
                  "file:///srv/server/chunks/pages/entry.mjs" 2)
           "/srv/client/" eq_refl).
Defined.

(** ** When the walk of [resolveClientDir] ends *)

Lemma length_list_ascii (s : string) :
  length (String.list_ascii_of_string s) = String.length s.
Proof. induction s as [|c s IH]; simpl; [|rewrite IH]; reflexivity. Qed.

Lemma length_string_of_list (l : list ascii) :
  String.length (String.string_of_list_ascii l) = length l.
Proof. induction l as [|c l IH]; simpl; [|rewrite IH]; reflexivity. Qed.

Lemma dropWhile_length {A} (p : A -> bool) (l : list A) :
  (length (Path.dropWhile p l) <= length l)%nat.
Proof.
  induction l as [|x l IH]; simpl; [lia|]. destruct (p x); simpl; lia.
Qed.

Lemma dropWhile_head {A} (p : A -> bool) (l : list A) (x : A) (t : list A) :
  Path.dropWhile p l = x :: t -> p x = false.
Proof.
  induction l as [|y l IH]; simpl; [discriminate|].
  destruct (p y) eqn:E; [exact IH|]. intros [= <- _]. exact E.
Qed.

(** The last segment scanned away holds at least one code unit. *)
Lemma dirname_scan_length (rest : list ascii) (x : ascii) (before : list ascii) :
  Path.dropWhile (fun c => negb (Path.isSlash c))
    (Path.dropWhile Path.isSlash (rev rest)) = x :: before ->
  (length before + 2 <= length rest)%nat.
Proof.
  pose proof (dropWhile_length Path.isSlash (rev rest)) as Hlen.
  rewrite length_rev in Hlen.
  destruct (Path.dropWhile Path.isSlash (rev rest)) as [|y t] eqn:E;
    [discriminate|].
  apply dropWhile_head in E. simpl. rewrite E. simpl. intros H.
  pose proof (dropWhile_length (fun c => negb (Path.isSlash c)) t) as Hlen'.
  rewrite H in Hlen'. simpl in Hlen, Hlen'. lia.
Qed.

(** One step to the parent: a fixed point, a shorter path, or [.] from a
    path of at most one code unit. *)
Lemma dirname_step (p : string) :
  Path.dirname p = p
  \/ (String.length (Path.dirname p) < String.length p)%nat
  \/ ((String.length p <= 1)%nat /\ Path.dirname p = ".").
Proof.
  unfold Path.dirname. rewrite <- (length_list_ascii p).
  destruct p as [|c0 p]; [right; right; split; [simpl; lia|reflexivity]|].
  cbn [String.list_ascii_of_string].
  destruct (Path.dropWhile _ _) as [|x before] eqn:Hscan.
  - destruct (Path.isSlash c0) eqn:Hroot.
    + apply Ascii.eqb_eq in Hroot as ->.
      destruct p as [|c1 p]; [left; reflexivity|right; left; simpl; lia].
    + destruct p as [|c1 p]; [right; right; split; [simpl; lia|reflexivity]|].
      right; left; simpl; lia.
  - apply dirname_scan_length in Hscan. right; left.
    destruct (_ && _).
    + simpl. lia.
    + rewrite length_string_of_list. simpl. rewrite length_rev. lia.
Qed.

Lemma ancestor_of_fixed (p : string) (k : nat) :
  Path.dirname p = p -> ancestor k p = p.
Proof.
  intros H. induction k as [|k IH]; [reflexivity|].
  rewrite ancestor_succ, H. exact IH.
Qed.

Lemma ancestor_add (j k : nat) (p : string) :
  ancestor (j + k) p = ancestor j (ancestor k p).
Proof. unfold ancestor. apply Nat.iter_add. Qed.

(** After one step more than its length, a path has reached a fixed
    point of [path.dirname]. *)
Lemma ancestors_settle (n : nat) :
  forall p, (String.length p <= n)%nat ->
            Path.dirname (ancestor (S n) p) = ancestor (S n) p.
Proof.
  induction n as [|n IH]; intros p Hlen.
  - destruct p; [reflexivity|simpl in Hlen; lia].
  - rewrite ancestor_succ.
    destruct (dirname_step p) as [Hfix|[Hshort|[_ Hdot]]].
    + rewrite Hfix, (ancestor_of_fixed p _ Hfix). exact Hfix.
    + apply IH. lia.
    + rewrite Hdot, (ancestor_of_fixed "." _ eq_refl). reflexivity.
Qed.

Lemma walkUp_none (serverFolder : string) (fuel : nat) :
  forall start,
    walkUp fuel serverFolder start = None ->
    forall j, (j <= fuel)%nat ->
              JS.endsWith (ancestor j start) serverFolder = false.
Proof.
  induction fuel as [|fuel IH]; intros start; rewrite walkUp_unfold;
    destruct (JS.endsWith start serverFolder) eqn:H0; try discriminate.
  - intros _ j Hj. replace j with 0%nat by lia. exact H0.
  - intros H [|j] Hj; [exact H0|].
    rewrite ancestor_succ. apply (IH _ H). lia.
Qed.

(** X18: the loop of [resolveClientDir] exits within one iteration more
    than the length of the folder it starts from, or never: when it is
    still running after that many iterations, no ancestor matches and it
    runs for ever. *)
Theorem walk_ends_early_or_never (serverFolder start : string) :
  walkUp (S (String.length start)) serverFolder start = None ->
  (forall k, JS.endsWith (ancestor k start) serverFolder = false)
  /\ walks_forever serverFolder start.
Proof.
  intros H.
  assert (Hnone : forall k,
            JS.endsWith (ancestor k start) serverFolder = false).
  { intros k. destruct (Nat.le_gt_cases k (S (String.length start)))
      as [Hk|Hk]; [apply (walkUp_none _ _ _ H), Hk|].
    replace k with ((k - S (String.length start)) + S (String.length start))%nat
      by lia.
    rewrite ancestor_add, ancestor_of_fixed
      by (apply ancestors_settle; lia).
    apply (walkUp_none _ _ _ H). lia. }
  split; [exact Hnone|].
  intros fuel. apply walkUp_no_match, Hnone.
Qed.

(** The theorem at an entry module outside any [server] folder. *)
Lemma walk_ends_early_or_never_witness :
  walks_forever "server" "file:///app".
Proof.
  exact (proj2 (walk_ends_early_or_never "server" "file:///app" eq_refl)).
Defined.
